(** * GateKeeper: enrollment and verification of password handles

    A shallow embedding of [gatekeeper.cpp] (namespace [gatekeeper]): the
    packed [password_handle_t] record, [GateKeeper::Enroll],
    [GateKeeper::Verify], [GateKeeper::CreatePasswordHandle],
    [GateKeeper::DoVerify], [GateKeeper::ValidatePasswordFile] and
    [GateKeeper::MintAuthToken].

    [GateKeeper] is an abstract class.  Its pure virtual members are the
    platform: the two signature primitives are the fields of the class
    [Platform]; the random source, the two keys, the password-file store and
    the monotonic clock are fields of the state [World] that every member
    function threads. *)

From Stdlib Require Import ZArith Lia.
From Stdlib Require Import Strings.Byte.
From stdpp Require Import base option list finite gmap.

Local Open Scope Z_scope.

(** ** Bytes and fixed-width integers *)

Module Bytes.

#[export] Instance byte_eq_decision : EqDecision byte := Byte.byte_eq_dec.

Definition Z_of_byte (b : byte) : Z := Z.of_N (Byte.to_N b).

(** The low eight bits of [z], as a [uint8_t]. *)
Definition byte_of_Z (z : Z) : byte :=
  match Byte.of_N (Z.to_N (z mod 256)) with
  | Some b => b
  | None => x00
  end.

(** The object representation of an [n]-byte unsigned integer: least
    significant byte first (every Android target is little endian); the
    value wraps modulo [2 ^ (8 * n)]. *)
Fixpoint le_bytes (n : nat) (z : Z) : list byte :=
  match n with
  | O => []
  | S n' => byte_of_Z z :: le_bytes n' (z / 256)
  end.

(** The unsigned integer whose object representation is [bs]. *)
Fixpoint le_value (bs : list byte) : Z :=
  match bs with
  | [] => 0
  | b :: bs' => Z_of_byte b + 256 * le_value bs'
  end.

Definition wrap (bits : Z) (z : Z) : Z := z mod 2 ^ bits.

(** [buf[off .. off + n)], or [None] when the read runs past the end of
    the buffer (undefined behaviour in the source). *)
Definition load (off n : nat) (buf : list byte) : option (list byte) :=
  if decide (off + n ≤ length buf)%nat then Some (take n (drop off buf))
  else None.

(** Toggle bit [k] of a byte. *)
Definition flip_byte (k : nat) (b : byte) : byte :=
  byte_of_Z (Z.lxor (Z_of_byte b) (2 ^ Z.of_nat k)).

(** Toggle bit [i] of a buffer: bit [i mod 8] of byte [i / 8]. *)
Definition flip_bit (i : nat) (buf : list byte) : list byte :=
  alter (flip_byte (i mod 8)) (i / 8)%nat buf.

End Bytes.
Import Bytes.

Section ByteFacts.

Lemma Z_of_byte_range b : 0 <= Z_of_byte b < 256.
Proof.
  unfold Z_of_byte. pose proof (Byte.to_N_bounded b). lia.
Qed.

Lemma byte_of_Z_of_byte b : byte_of_Z (Z_of_byte b) = b.
Proof.
  unfold byte_of_Z. pose proof (Z_of_byte_range b) as Hb.
  rewrite Z.mod_small by lia. unfold Z_of_byte.
  rewrite N2Z.id, Byte.of_to_N. reflexivity.
Qed.

Lemma Z_of_byte_of_Z z : Z_of_byte (byte_of_Z z) = z mod 256.
Proof.
  unfold byte_of_Z, Z_of_byte.
  pose proof (Z.mod_pos_bound z 256 ltac:(lia)) as Hz.
  destruct (Byte.of_N (Z.to_N (z mod 256))) as [b|] eqn:E.
  - apply Byte.to_of_N in E. rewrite E. lia.
  - apply Byte.of_N_None_iff in E. lia.
Qed.

Lemma byte_of_Z_add_mul b z : byte_of_Z (Z_of_byte b + 256 * z) = b.
Proof.
  rewrite <- (byte_of_Z_of_byte b) at 2.
  unfold byte_of_Z.
  replace ((Z_of_byte b + 256 * z) mod 256) with (Z_of_byte b mod 256); [reflexivity|].
  rewrite (Z.mul_comm 256 z). symmetry. apply Z_mod_plus_full.
Qed.

Lemma length_le_bytes n z : length (le_bytes n z) = n.
Proof. revert z. induction n as [|n IH]; intros z; simpl; [|rewrite IH]; reflexivity. Qed.

(** Writing an integer read from [bs] gives back [bs]: a field copied
    from one record to another keeps its bytes. *)
Lemma le_bytes_le_value bs : le_bytes (length bs) (le_value bs) = bs.
Proof.
  induction bs as [|b bs IH]; simpl; [reflexivity|].
  rewrite byte_of_Z_add_mul. f_equal.
  pose proof (Z_of_byte_range b).
  replace ((Z_of_byte b + 256 * le_value bs) / 256) with (le_value bs); [exact IH|].
  rewrite Z.add_comm, Z.mul_comm, Z.div_add_l by lia.
  rewrite Z.div_small by lia. lia.
Qed.

Lemma le_value_range bs : 0 <= le_value bs < 2 ^ (8 * Z.of_nat (length bs)).
Proof.
  induction bs as [|b bs IH]; [simpl; lia|].
  cbn [le_value length]. pose proof (Z_of_byte_range b).
  replace (8 * Z.of_nat (S (length bs))) with (8 + 8 * Z.of_nat (length bs)) by lia.
  rewrite Z.pow_add_r by lia. change (2 ^ 8) with 256. nia.
Qed.

Lemma le_value_le_bytes n z : le_value (le_bytes n z) = wrap (8 * Z.of_nat n) z.
Proof.
  unfold wrap. revert z. induction n as [|n IH]; intros z.
  - simpl. rewrite Z.mod_1_r. reflexivity.
  - cbn [le_bytes le_value]. rewrite IH, Z_of_byte_of_Z.
    replace (8 * Z.of_nat (S n)) with (8 + 8 * Z.of_nat n) by lia.
    rewrite Z.pow_add_r by lia. change (2 ^ 8) with 256.
    rewrite Z.rem_mul_r by lia. reflexivity.
Qed.

Lemma le_bytes_wrap n z : le_bytes n (wrap (8 * Z.of_nat n) z) = le_bytes n z.
Proof.
  rewrite <- le_value_le_bytes.
  rewrite <- (length_le_bytes n z) at 1. apply le_bytes_le_value.
Qed.

Lemma wrap_le_value bs : wrap (8 * Z.of_nat (length bs)) (le_value bs) = le_value bs.
Proof. unfold wrap. apply Z.mod_small, le_value_range. Qed.

Lemma flip_byte_neq k b : (k < 8)%nat → flip_byte k b ≠ b.
Proof.
  intros Hk.
  do 8 (destruct k as [|k]; [destruct b; intros E; vm_compute in E; discriminate E|]).
  lia.
Qed.

End ByteFacts.

(** There are 256 bytes. *)
Definition byte_of_nat (n : nat) : byte := default x00 (Byte.of_nat n).

Lemma byte_of_nat_to_nat b : byte_of_nat (Byte.to_nat b) = b.
Proof. unfold byte_of_nat. rewrite Byte.of_to_nat. reflexivity. Qed.

Lemma byte_to_nat_bound b : (Byte.to_nat b < 256)%nat.
Proof. pose proof (Byte.to_nat_bounded b). lia. Qed.

Lemma byte_to_nat_of_nat i : (i < 256)%nat → Byte.to_nat (byte_of_nat i) = i.
Proof.
  intros Hi. unfold byte_of_nat.
  destruct (Byte.of_nat i) as [b|] eqn:E.
  - apply Byte.to_of_nat. exact E.
  - apply Byte.of_nat_None_iff in E. lia.
Qed.

#[export] Instance byte_finite : Finite byte :=
  enc_finite Byte.to_nat byte_of_nat 256
    byte_of_nat_to_nat byte_to_nat_bound byte_to_nat_of_nat.

(** ** The declarations the code takes from [gatekeeper.h] *)

(** Modelled from the spec: the header is not part of the sources at hand.
    [secure_id_t] is the 64-bit secure identity; [salt_t], a fixed-size
    value passed by value, is [uint64_t] as well; a [SizedBuffer] is an
    owned byte array with its length, or the null buffer. *)
Abbreviation secure_id_t := Z (only parsing).
Abbreviation salt_t := Z (only parsing).
Abbreviation SizedBuffer := (option (list byte)) (only parsing).

Definition uint64 (z : Z) : Z := wrap 64 z.
Definition uint32 (z : Z) : Z := wrap 32 z.

Definition buffer_length (b : SizedBuffer) : nat :=
  match b with
  | Some bytes => length bytes
  | None => O
  end.

Inductive gatekeeper_error_t := ERROR_NONE | ERROR_INVALID.

(** Modelled from the spec: the [AuthToken] record is declared in the absent
    header; its fields are rootSecureId, auxiliarySecureId, a 32-bit
    timestamp and a 32-byte hmac, the hmac covering the fields before it in
    declaration order. *)
Record AuthToken := {
  root_secure_user_id : secure_id_t;
  auxiliary_secure_user_id : secure_id_t;
  timestamp : Z;
  hmac : list byte
}.

Record EnrollRequest := {
  enroll_user_id : N;
  enroll_password_handle : SizedBuffer;
  enrolled_password : SizedBuffer;
  enroll_provided_password : SizedBuffer
}.

Record VerifyRequest := {
  verify_user_id : N;
  verify_password_handle : SizedBuffer;
  verify_provided_password : SizedBuffer
}.

(** A response carries [ERROR_INVALID] or the payload set by
    [SetEnrolledPasswordHandle] / [SetVerificationToken]. *)
Inductive EnrollResponse :=
| EnrollError (error : gatekeeper_error_t)
| EnrolledPasswordHandle (handle : list byte).

Inductive VerifyResponse :=
| VerifyError (error : gatekeeper_error_t)
| VerificationToken (token : AuthToken).

(** ** The password handle *)

Definition HANDLE_VERSION : byte := x00.

Definition sizeof_uint8_t : nat := 1.
Definition sizeof_secure_id_t : nat := 8.
Definition sizeof_salt_t : nat := 8.
Definition sizeof_signature : nat := 32.

(** [struct __attribute__ ((__packed__)) password_handle_t] *)
Record password_handle_t := {
  version : byte;
  user_id : secure_id_t;
  authenticator_id : secure_id_t;
  salt : salt_t;
  signature : list byte
}.

Definition offsetof_version : nat := 0.
Definition offsetof_user_id : nat := offsetof_version + sizeof_uint8_t.
Definition offsetof_authenticator_id : nat := offsetof_user_id + sizeof_secure_id_t.
Definition offsetof_salt : nat := offsetof_authenticator_id + sizeof_secure_id_t.
Definition offsetof_signature : nat := offsetof_salt + sizeof_salt_t.
Definition sizeof_password_handle_t : nat := offsetof_signature + sizeof_signature.

(** The bytes of a packed handle, fields in declaration order, no padding. *)
Definition handle_bytes (h : password_handle_t) : list byte :=
  version h :: le_bytes sizeof_secure_id_t (user_id h)
    ++ le_bytes sizeof_secure_id_t (authenticator_id h)
    ++ le_bytes sizeof_salt_t (salt h)
    ++ signature h.

(** The assignment of [h->signature]. *)
Definition set_signature (h : password_handle_t) (sig : list byte) : password_handle_t :=
  {| version := version h; user_id := user_id h;
     authenticator_id := authenticator_id h; salt := salt h; signature := sig |}.

(** Field reads through a [password_handle_t *] obtained by
    [reinterpret_cast] from a buffer; [None] when the field lies past the
    end of the buffer. *)
Definition read_version (buf : list byte) : option byte :=
  buf !! offsetof_version.
Definition read_user_id (buf : list byte) : option secure_id_t :=
  le_value <$> load offsetof_user_id sizeof_secure_id_t buf.
Definition read_authenticator_id (buf : list byte) : option secure_id_t :=
  le_value <$> load offsetof_authenticator_id sizeof_secure_id_t buf.
Definition read_salt (buf : list byte) : option salt_t :=
  le_value <$> load offsetof_salt sizeof_salt_t buf.
Definition read_signature (buf : list byte) : option (list byte) :=
  load offsetof_signature sizeof_signature buf.

(** Modelled from the spec: [memcmp_s] is declared in the absent header; it
    is the constant-time byte-for-byte equality check, 0 exactly when the
    [n] leading bytes of the operands agree.  It reads [n] bytes of each. *)
Definition memcmp_s (p1 p2 : list byte) (n : nat) : option Z :=
  a ← load 0 n p1; b ← load 0 n p2; Some (if decide (a = b) then 0 else 1).

(** ** The platform *)

(** The deterministic signature primitives, pure virtual in [GateKeeper].
    Each fills the [signature_length] bytes of its output buffer. *)
Class Platform := {
  ComputePasswordSignature :
    ∀ (signature_length : nat) (key message : list byte) (salt : salt_t), list byte;
  ComputeSignature :
    ∀ (signature_length : nat) (key : SizedBuffer) (message : list byte), list byte;
  ComputePasswordSignature_length n key message salt :
    length (ComputePasswordSignature n key message salt) = n;
  ComputeSignature_length n key message :
    length (ComputeSignature n key message) = n
}.

(** Calls to the collaborators that sign or persist, newest first. *)
Inductive call :=
| CallComputePasswordSignature (key message : list byte) (salt : salt_t)
| CallComputeSignature (key : SizedBuffer) (message : list byte)
| CallWritePasswordFile (uid : N) (handle : list byte).

(** Modelled from the spec: the random source, the key service, the
    password-file store (overwrite semantics, keyed by user id) and the
    monotonic clock are implemented outside this file. *)
Record World := {
  entropy : nat → byte;
  drawn : nat;
  password_key : SizedBuffer;
  auth_token_key : SizedBuffer;
  password_files : gmap N (list byte);
  tv_sec : Z;
  trace : list call
}.

Definition log (c : call) (w : World) : World :=
  {| entropy := entropy w; drawn := drawn w; password_key := password_key w;
     auth_token_key := auth_token_key w; password_files := password_files w;
     tv_sec := tv_sec w; trace := c :: trace w |}.

Definition draw (n : nat) (w : World) : World :=
  {| entropy := entropy w; drawn := (n + drawn w)%nat; password_key := password_key w;
     auth_token_key := auth_token_key w; password_files := password_files w;
     tv_sec := tv_sec w; trace := trace w |}.

Definition store (uid : N) (handle : list byte) (w : World) : World :=
  {| entropy := entropy w; drawn := drawn w; password_key := password_key w;
     auth_token_key := auth_token_key w;
     password_files := <[uid := handle]> (password_files w);
     tv_sec := tv_sec w; trace := trace w |}.

(** A member function: a state transformer, or [None] when it reads past
    the end of a buffer. *)
Definition M (A : Type) : Type := World → option (A * World).

#[export] Instance M_ret : MRet M := λ A (a : A) w, Some (a, w).
#[export] Instance M_bind : MBind M := λ A B (f : A → M B) (m : M A) w,
  match m w with
  | Some (a, w') => f a w'
  | None => None
  end.

Definition deref {A} (o : option A) : M A := λ w,
  match o with
  | Some a => Some (a, w)
  | None => None
  end.

Definition GetRandom (n : nat) : M (list byte) := λ w,
  Some (map (entropy w) (seq (drawn w) n), draw n w).
Definition GetPasswordKey : M SizedBuffer := λ w, Some (password_key w, w).
Definition GetAuthTokenKey : M SizedBuffer := λ w, Some (auth_token_key w, w).
Definition ReadPasswordFile (uid : N) : M SizedBuffer := λ w,
  Some (password_files w !! uid, w).
Definition WritePasswordFile (uid : N) (handle : list byte) : M unit := λ w,
  Some (tt, log (CallWritePasswordFile uid handle) (store uid handle w)).
Definition clock_gettime : M Z := λ w, Some (tv_sec w, w).

(** ** The member functions of [GateKeeper] *)

Section GateKeeper.

Context `{Platform}.

Definition password_signature (n : nat) (key message : list byte) (salt : salt_t)
    : M (list byte) := λ w,
  Some (ComputePasswordSignature n key message salt,
        log (CallComputePasswordSignature key message salt) w).

Definition token_signature (n : nat) (key : SizedBuffer) (message : list byte)
    : M (list byte) := λ w,
  Some (ComputeSignature n key message, log (CallComputeSignature key message) w).

Definition metadata_length : nat :=
  (sizeof_secure_id_t + sizeof_secure_id_t + sizeof_uint8_t)%nat.

(** [GateKeeper::CreatePasswordHandle].  The result is the filled buffer
    when the function returns [true], [None] when it returns [false].  The
    bytes handed to the signature are the first [metadata_length] bytes of
    the record followed by the password; at that point the signature
    field is not yet written. *)
Definition CreatePasswordHandle (salt : salt_t) (user_id authenticator_id : secure_id_t)
    (password : list byte) : M (option (list byte)) :=
  let password_handle :=
    {| version := HANDLE_VERSION;
       salt := uint64 salt;
       user_id := uint64 user_id;
       authenticator_id := uint64 authenticator_id;
       signature := [] |} in
  let to_sign := take metadata_length (handle_bytes password_handle) ++ password in
  password_key ← GetPasswordKey;
  match password_key with
  | None => mret None
  | Some key =>
      if decide (length key = 0%nat) then mret None
      else
        sig ← password_signature sizeof_signature key to_sign (uint64 salt);
        mret (Some (handle_bytes (set_signature password_handle sig)))
  end.

(** [GateKeeper::DoVerify] *)
Definition DoVerify (expected_handle : list byte) (password : SizedBuffer) : M bool :=
  match password with
  | None => mret false
  | Some pw =>
      salt ← deref (read_salt expected_handle);
      user_id ← deref (read_user_id expected_handle);
      authenticator_id ← deref (read_authenticator_id expected_handle);
      created ← CreatePasswordHandle salt user_id authenticator_id pw;
      match created with
      | None => mret false
      | Some provided_handle =>
          c ← deref (memcmp_s provided_handle expected_handle sizeof_password_handle_t);
          mret (bool_decide (c = 0))
      end
  end.

(** [GateKeeper::ValidatePasswordFile] *)
Definition ValidatePasswordFile (uid : N) (provided_handle : SizedBuffer) : M bool :=
  stored_handle ← ReadPasswordFile uid;
  match stored_handle with
  | None => mret false
  | Some stored =>
      if decide (length stored = 0%nat) then mret false
      else if decide (length stored = buffer_length provided_handle) then
        c ← deref (memcmp_s stored (default [] provided_handle) (length stored));
        mret (bool_decide (c = 0))
      else mret false
  end.

(** [GateKeeper::MintAuthToken].  The key is passed on as retrieved, null
    or not. *)
Definition MintAuthToken (timestamp : Z) (user_id authenticator_id : secure_id_t)
    : M AuthToken :=
  let hashed :=
    le_bytes 8 user_id ++ le_bytes 8 authenticator_id ++ le_bytes 4 timestamp in
  auth_token_key ← GetAuthTokenKey;
  mac ← token_signature sizeof_signature auth_token_key hashed;
  mret {| root_secure_user_id := uint64 user_id;
          auxiliary_secure_user_id := uint64 authenticator_id;
          timestamp := uint32 timestamp;
          hmac := mac |}.

(** [GateKeeper::Enroll].  The response is the function's result (a null
    [response] pointer is not modelled).  [enroll_identity] is the first
    [if]/[else] of the body: the secure id to enroll under, or [None]
    where the source sets [ERROR_INVALID] and returns. *)
Definition enroll_identity (request : EnrollRequest) : M (option secure_id_t) :=
  match enroll_password_handle request with
  | None =>
      user_id ← GetRandom sizeof_secure_id_t;
      mret (Some (le_value user_id))
  | Some pw_handle =>
      valid ← ValidatePasswordFile (enroll_user_id request) (Some pw_handle);
      if negb valid then mret None
      else
        verified ← DoVerify pw_handle (enrolled_password request);
        if negb verified then mret None
        else
          user_id ← deref (read_user_id pw_handle);
          mret (Some user_id)
  end.

Definition Enroll (request : EnrollRequest) : M EnrollResponse :=
  match enroll_provided_password request with
  | None => mret (EnrollError ERROR_INVALID)
  | Some provided_password =>
      identity ← enroll_identity request;
      match identity with
      | None => mret (EnrollError ERROR_INVALID)
      | Some user_id =>
          salt ← GetRandom sizeof_salt_t;
          authenticator_id ← GetRandom sizeof_secure_id_t;
          created ← CreatePasswordHandle (le_value salt) user_id
                      (le_value authenticator_id) provided_password;
          match created with
          | None => mret (EnrollError ERROR_INVALID)
          | Some password_handle =>
              _ ← WritePasswordFile (enroll_user_id request) password_handle;
              mret (EnrolledPasswordHandle password_handle)
          end
      end
  end.

(** [GateKeeper::Verify] *)
Definition Verify (request : VerifyRequest) : M VerifyResponse :=
  match verify_provided_password request, verify_password_handle request with
  | Some provided_password, Some password_handle =>
      handle_version ← deref (read_version password_handle);
      if decide (handle_version ≠ HANDLE_VERSION) then mret (VerifyError ERROR_INVALID)
      else
        valid ← ValidatePasswordFile (verify_user_id request) (Some password_handle);
        ids ← ((if negb valid then mret (0, 0)
               else
                 user_id ← deref (read_user_id password_handle);
                 authenticator_id ← deref (read_authenticator_id password_handle);
                 mret (user_id, authenticator_id)) : M (secure_id_t * secure_id_t));
        time ← clock_gettime;
        let timestamp := uint32 time in
        verified ← DoVerify password_handle (Some provided_password);
        if (verified : bool) then
          auth_token ← MintAuthToken timestamp ids.1 ids.2;
          mret (VerificationToken auth_token)
        else mret (VerifyError ERROR_INVALID)
  | _, _ => mret (VerifyError ERROR_INVALID)
  end.

End GateKeeper.

(** ** Two concrete platforms *)

(** [fit n l]: the [n] bytes an output buffer of size [n] holds after [l]
    is copied into it, zero filled. *)
Definition fit (n : nat) (l : list byte) : list byte := take n (l ++ replicate n x00).

Lemma length_fit n l : length (fit n l) = n.
Proof. unfold fit. rewrite length_take, length_app, length_replicate. lia. Qed.

(** A platform whose signatures echo the salt, the key and the message:
    deterministic, and sensitive to each of them within the first
    [signature_length] bytes. *)
#[export] Instance EchoPlatform : Platform := {|
  ComputePasswordSignature n key message salt := fit n (le_bytes 8 salt ++ key ++ message);
  ComputeSignature n key message := fit n (default [] key ++ message);
  ComputePasswordSignature_length n key message salt := length_fit n _;
  ComputeSignature_length n key message := length_fit n _
|}.

(** A platform whose signatures are all zero: deterministic, and blind to
    the key, the message and the salt. *)
Definition ZeroPlatform : Platform := {|
  ComputePasswordSignature n key message salt := fit n [];
  ComputeSignature n key message := fit n [];
  ComputePasswordSignature_length n key message salt := length_fit n _;
  ComputeSignature_length n key message := length_fit n _
|}.

(** A platform that signs the message and the key but not the salt. *)
Definition SaltBlindPlatform : Platform := {|
  ComputePasswordSignature n key message salt := fit n (key ++ message);
  ComputeSignature n key message := fit n (default [] key ++ message);
  ComputePasswordSignature_length n key message salt := length_fit n _;
  ComputeSignature_length n key message := length_fit n _
|}.

Definition boot_world : World :=
  {| entropy := λ i, byte_of_Z (Z.of_nat i * 37 + 11);
     drawn := 0;
     password_key := Some [x70; x77; x6b];
     auth_token_key := Some [x61; x74; x6b];
     password_files := ∅;
     tv_sec := 4294967296 + 1000;
     trace := [] |}.

(** ** Specification vocabulary *)

(** The fields of [password_handle_t], and the field a byte offset falls in. *)
Inductive field := Version | UserId | AuthenticatorId | Salt | Signature.

Definition field_of_byte (j : nat) : option field :=
  if decide (j < offsetof_user_id)%nat then Some Version
  else if decide (j < offsetof_authenticator_id)%nat then Some UserId
  else if decide (j < offsetof_salt)%nat then Some AuthenticatorId
  else if decide (j < offsetof_signature)%nat then Some Salt
  else if decide (j < sizeof_password_handle_t)%nat then Some Signature
  else None.

Definition field_of_bit (i : nat) : option field := field_of_byte (i / 8).

(** The bytes [CreatePasswordHandle] signs. *)
Definition signed_region (user_id authenticator_id : secure_id_t) (password : list byte)
    : list byte :=
  [HANDLE_VERSION] ++ le_bytes sizeof_secure_id_t user_id
    ++ le_bytes sizeof_secure_id_t authenticator_id ++ password.

(** The signature [DoVerify] recomputes from a presented handle: over the
    current version, bytes 1 to 16 of the handle (secure id, authenticator
    id) and the password, under the salt in bytes 17 to 24. *)
Definition recomputed_signature `{Platform} (key handle password : list byte) : list byte :=
  ComputePasswordSignature sizeof_signature key
    (HANDLE_VERSION :: take 16 (drop 1 handle) ++ password)
    (le_value (take 8 (drop 17 handle))).

(** The record [DoVerify] rebuilds from a presented handle: the current
    version, bytes 1 to 24 of the handle, the recomputed signature. *)
Definition recomputed_handle `{Platform} (key handle password : list byte) : list byte :=
  HANDLE_VERSION :: take 24 (drop 1 handle) ++ recomputed_signature key handle password.

(** The key [CreatePasswordHandle] signs with, when the key service has one. *)
Definition signing_key (w : World) : option (list byte) :=
  match password_key w with
  | Some key => if decide (length key = 0%nat) then None else Some key
  | None => None
  end.

(** What the password-file cross-check of [ValidatePasswordFile] rejects:
    no record, an empty record, or a record that differs from the handle. *)
Definition cross_check_fails (w : World) (uid : N) (handle : list byte) : Prop :=
  match password_files w !! uid with
  | None => True
  | Some stored => stored = [] ∨ stored ≠ handle
  end.

(** The [n] bytes the random source yields once [k] further bytes have been
    drawn from it. *)
Definition fresh (w : World) (k n : nat) : list byte :=
  map (entropy w) (seq (k + drawn w) n).

(** The store writes among a sequence of calls. *)
Definition writes (t : list call) : list (N * list byte) :=
  omap (λ c, match c with
             | CallWritePasswordFile uid handle => Some (uid, handle)
             | _ => None
             end) t.

(** The outcome of a member function, without the final state. *)
Definition result {A} (m : M A) (w : World) : option A := fst <$> m w.

(** ** Buffers and reads *)

Arguments le_bytes : simpl never.
Arguments le_value : simpl never.

Section Reads.

Lemma load_here (x post : list byte) n :
  length x = n → load 0 n (x ++ post) = Some x.
Proof.
  intros <-. unfold load. rewrite decide_True by (rewrite length_app; lia).
  rewrite drop_0, take_app_length. reflexivity.
Qed.

Lemma load_skip (pre l : list byte) off off' n :
  off = (length pre + off')%nat → load off n (pre ++ l) = load off' n l.
Proof.
  intros ->. unfold load. rewrite drop_app_add, length_app.
  repeat case_decide; try reflexivity; lia.
Qed.

Lemma load_whole n (buf : list byte) :
  (n ≤ length buf)%nat → load 0 n buf = Some (take n buf).
Proof. intros Hle. unfold load. rewrite decide_True by lia. reflexivity. Qed.

(** A buffer that holds a whole record splits into the five fields. *)
Lemma handle_split (e : list byte) :
  (sizeof_password_handle_t ≤ length e)%nat →
  ∃ v U A S G rest,
    e = [v] ++ U ++ A ++ S ++ G ++ rest ∧
    length U = 8%nat ∧ length A = 8%nat ∧ length S = 8%nat ∧ length G = 32%nat.
Proof.
  change sizeof_password_handle_t with 57%nat. intros Hlen.
  destruct e as [|v e]; [simpl in Hlen; lia|]. simpl in Hlen.
  exists v, (take 8 e), (take 8 (drop 8 e)), (take 8 (drop 16 e)),
    (take 32 (drop 24 e)), (drop 56 e).
  rewrite !length_take, !length_drop.
  split; [|lia].
  rewrite <- (take_drop 8 e) at 1. simpl. f_equal. f_equal.
  rewrite <- (take_drop 8 (drop 8 e)) at 1. f_equal.
  rewrite drop_drop.
  rewrite <- (take_drop 8 (drop (8 + 8) e)) at 1. f_equal.
  rewrite drop_drop.
  rewrite <- (take_drop 32 (drop (8 + 8 + 8) e)) at 1. f_equal.
  rewrite drop_drop. reflexivity.
Qed.

Section Layout.

Variables (v : byte) (U A S G rest : list byte).
Hypothesis HU : length U = 8%nat.
Hypothesis HA : length A = 8%nat.
Hypothesis HS : length S = 8%nat.
Hypothesis HG : length G = 32%nat.

Let e := [v] ++ U ++ A ++ S ++ G ++ rest.

Lemma layout_version : read_version e = Some v.
Proof. reflexivity. Qed.

Lemma layout_user_id : read_user_id e = Some (le_value U).
Proof.
  unfold read_user_id, e.
  rewrite (load_skip [v] _ _ 0) by reflexivity.
  rewrite load_here by exact HU. reflexivity.
Qed.

Lemma layout_authenticator_id : read_authenticator_id e = Some (le_value A).
Proof.
  unfold read_authenticator_id, e.
  rewrite (load_skip [v] _ _ 8) by reflexivity.
  rewrite (load_skip U _ _ 0) by (rewrite HU; reflexivity).
  rewrite load_here by exact HA. reflexivity.
Qed.

Lemma layout_salt : read_salt e = Some (le_value S).
Proof.
  unfold read_salt, e.
  rewrite (load_skip [v] _ _ 16) by reflexivity.
  rewrite (load_skip U _ _ 8) by (rewrite HU; reflexivity).
  rewrite (load_skip A _ _ 0) by (rewrite HA; reflexivity).
  rewrite load_here by exact HS. reflexivity.
Qed.

Lemma layout_signature : read_signature e = Some G.
Proof.
  unfold read_signature, e.
  rewrite (load_skip [v] _ _ 24) by reflexivity.
  rewrite (load_skip U _ _ 16) by (rewrite HU; reflexivity).
  rewrite (load_skip A _ _ 8) by (rewrite HA; reflexivity).
  rewrite (load_skip S _ _ 0) by (rewrite HS; reflexivity).
  rewrite load_here by exact HG. reflexivity.
Qed.

Lemma layout_record :
  load 0 sizeof_password_handle_t e = Some ([v] ++ U ++ A ++ S ++ G).
Proof.
  unfold e.
  replace ([v] ++ U ++ A ++ S ++ G ++ rest)
    with (([v] ++ U ++ A ++ S ++ G) ++ rest)
    by (rewrite <- !app_assoc; reflexivity).
  apply load_here. rewrite !length_app, HU, HA, HS, HG. reflexivity.
Qed.

Lemma layout_identity : take 16 (drop 1 e) = U ++ A.
Proof.
  unfold e. simpl. rewrite drop_0.
  rewrite (app_assoc U A). apply take_app_length'.
  rewrite length_app, HU, HA. reflexivity.
Qed.

Lemma layout_unsigned : take 24 (drop 1 e) = U ++ A ++ S.
Proof.
  unfold e. simpl. rewrite drop_0.
  replace (U ++ A ++ S ++ G ++ rest) with ((U ++ A ++ S) ++ G ++ rest)
    by (rewrite <- !app_assoc; reflexivity).
  apply take_app_length'. rewrite !length_app, HU, HA, HS. reflexivity.
Qed.

Lemma layout_salt_bytes : take 8 (drop 17 e) = S.
Proof.
  unfold e.
  replace ([v] ++ U ++ A ++ S ++ G ++ rest)
    with (([v] ++ U ++ A) ++ S ++ G ++ rest)
    by (rewrite <- !app_assoc; reflexivity).
  rewrite drop_app_length' by (rewrite !length_app, HU, HA; reflexivity).
  apply take_app_length'. symmetry. exact HS.
Qed.

End Layout.

End Reads.

(** ** What the member functions compute *)

Ltac run :=
  unfold mbind, M_bind, mret, M_ret, deref, result,
    GetPasswordKey, GetAuthTokenKey, ReadPasswordFile, WritePasswordFile,
    clock_gettime, GetRandom; cbn beta iota.

Section Core.

Context `{Platform}.

Lemma uint64_le_bytes z : le_bytes 8 (uint64 z) = le_bytes 8 z.
Proof. exact (le_bytes_wrap 8 z). Qed.

Lemma uint64_le_value bs : length bs = 8%nat → uint64 (le_value bs) = le_value bs.
Proof. intros Hlen. pose proof (wrap_le_value bs) as E. rewrite Hlen in E. exact E. Qed.

Lemma le_bytes_8_le_value bs : length bs = 8%nat → le_bytes 8 (le_value bs) = bs.
Proof. intros <-. apply le_bytes_le_value. Qed.

Lemma to_sign_eq s uid aid pw :
  take metadata_length
    (handle_bytes {| version := HANDLE_VERSION; user_id := uint64 uid;
                     authenticator_id := uint64 aid; salt := uint64 s;
                     signature := [] |}) ++ pw
  = signed_region uid aid pw.
Proof.
  unfold handle_bytes, signed_region, metadata_length.
  cbn [version user_id authenticator_id salt signature].
  unfold sizeof_secure_id_t, sizeof_salt_t, sizeof_uint8_t.
  rewrite !uint64_le_bytes.
  change (8 + 8 + 1)%nat with (S 16). cbn [take app].
  rewrite (app_assoc (le_bytes 8 uid)).
  rewrite take_app_length' by (rewrite length_app, !length_le_bytes; reflexivity).
  rewrite <- app_assoc. reflexivity.
Qed.

(** [CreatePasswordHandle], in closed form. *)
Lemma CreatePasswordHandle_eq s uid aid pw w :
  CreatePasswordHandle s uid aid pw w =
  match signing_key w with
  | Some key =>
      Some (Some ([HANDLE_VERSION] ++ le_bytes 8 uid ++ le_bytes 8 aid ++ le_bytes 8 s
                    ++ ComputePasswordSignature sizeof_signature key
                         (signed_region uid aid pw) (uint64 s)),
            log (CallComputePasswordSignature key (signed_region uid aid pw)
                   (uint64 s)) w)
  | None => Some (None, w)
  end.
Proof.
  unfold CreatePasswordHandle, signing_key. run.
  destruct (password_key w) as [key|]; [|reflexivity].
  case_decide; [reflexivity|].
  unfold password_signature. rewrite to_sign_eq.
  unfold handle_bytes, set_signature.
  cbn [version user_id authenticator_id salt signature].
  unfold sizeof_secure_id_t, sizeof_salt_t. rewrite !uint64_le_bytes. reflexivity.
Qed.

(** [DoVerify] on a buffer that holds a whole record. *)
Lemma DoVerify_layout v U A S G rest pw w :
  length U = 8%nat → length A = 8%nat → length S = 8%nat → length G = 32%nat →
  DoVerify ([v] ++ U ++ A ++ S ++ G ++ rest) (Some pw) w =
  match signing_key w with
  | Some key =>
      let message := [HANDLE_VERSION] ++ U ++ A ++ pw in
      Some (bool_decide (v = HANDLE_VERSION ∧
                         G = ComputePasswordSignature sizeof_signature key message
                               (le_value S)),
            log (CallComputePasswordSignature key message (le_value S)) w)
  | None => Some (false, w)
  end.
Proof.
  intros HU HA HS HG. unfold DoVerify.
  rewrite layout_salt, layout_user_id, layout_authenticator_id by assumption.
  run. rewrite CreatePasswordHandle_eq.
  destruct (signing_key w) as [key|]; [|reflexivity].
  unfold signed_region, sizeof_secure_id_t.
  rewrite !le_bytes_8_le_value, (uint64_le_value S HS) by assumption.
  set (sig := ComputePasswordSignature _ _ _ _).
  assert (Hsig : length sig = 32%nat) by apply ComputePasswordSignature_length.
  unfold memcmp_s.
  rewrite layout_record by assumption.
  rewrite <- (app_nil_r sig) at 1.
  rewrite layout_record by assumption.
  cbn [mbind option_bind]. run. do 2 f_equal.
  apply bool_decide_ext. case_decide as E.
  - injection E as -> E.
    split; [intros _|intros _; reflexivity]. split; [reflexivity|].
    do 3 apply app_inv_head in E. symmetry. exact E.
  - split; [discriminate|]. intros [-> ->]. exfalso. apply E. reflexivity.
Qed.

End Core.

Section Verification.

Context `{Platform}.

Lemma result_Some {A} (m : M A) w a w' : m w = Some (a, w') → result m w = Some a.
Proof. unfold result. intros ->. reflexivity. Qed.

(** [DoVerify] on any buffer that holds a whole record: the version byte
    must be current and the stored signature must be the recomputed one. *)
Lemma DoVerify_spec e pw w :
  (sizeof_password_handle_t ≤ length e)%nat →
  result (DoVerify e (Some pw)) w =
  Some (match signing_key w with
        | Some key =>
            bool_decide (read_version e = Some HANDLE_VERSION ∧
                         read_signature e = Some (recomputed_signature key e pw))
        | None => false
        end).
Proof.
  intros Hlen. destruct (handle_split e Hlen) as (v & U & A & S & G & rest & -> & HU & HA & HS & HG).
  unfold result. rewrite DoVerify_layout by assumption.
  destruct (signing_key w) as [key|]; [|reflexivity].
  cbn [fmap option_fmap option_map fst]. f_equal.
  unfold recomputed_signature.
  rewrite layout_version, layout_signature, layout_identity, layout_salt_bytes by assumption.
  rewrite <- (app_assoc U A pw).
  apply bool_decide_ext. split.
  - intros [-> ->]. split; reflexivity.
  - intros [[= ->] [= ->]]. split; reflexivity.
Qed.

(** [DoVerify] compares all of the record it rebuilds with the presented
    one. *)
Lemma DoVerify_whole_record e pw w :
  (sizeof_password_handle_t ≤ length e)%nat →
  result (DoVerify e (Some pw)) w =
  Some (match signing_key w with
        | Some key =>
            bool_decide (take sizeof_password_handle_t e = recomputed_handle key e pw)
        | None => false
        end).
Proof.
  intros Hlen. rewrite DoVerify_spec by assumption.
  destruct (signing_key w) as [key|]; [|reflexivity]. f_equal.
  destruct (handle_split e Hlen) as (v & U & A & S & G & rest & -> & HU & HA & HS & HG).
  pose proof (layout_record v U A S G rest HU HA HS HG) as Hrec.
  rewrite load_whole in Hrec by exact Hlen. apply (inj Some) in Hrec. rewrite Hrec.
  unfold recomputed_handle.
  rewrite layout_version, layout_signature, layout_unsigned by assumption.
  set (sig := recomputed_signature _ _ _).
  apply bool_decide_ext. split.
  - intros [[= ->] [= Esig]]. rewrite Esig. rewrite <- !app_assoc. reflexivity.
  - intros E. injection E as Ev E. rewrite <- !app_assoc in E.
    do 3 apply app_inv_head in E. rewrite Ev, E. split; reflexivity.
Qed.

(** What [DoVerify] accepts holds a whole record. *)
Lemma DoVerify_true_length e password w w' :
  DoVerify e password w = Some (true, w') → (sizeof_password_handle_t ≤ length e)%nat.
Proof.
  unfold DoVerify. destruct password as [pw|]; [|run; discriminate].
  run. destruct (read_salt e); [|discriminate].
  destruct (read_user_id e); [|discriminate].
  destruct (read_authenticator_id e); [|discriminate].
  destruct (CreatePasswordHandle _ _ _ _ w) as [[[provided|] w0]|]; [|discriminate..].
  unfold memcmp_s, load.
  destruct (decide (0 + sizeof_password_handle_t ≤ length provided)%nat);
    [|discriminate].
  destruct (decide (0 + sizeof_password_handle_t ≤ length e)%nat) as [Hle|];
    [|discriminate].
  intros _. exact Hle.
Qed.

(** The handles [CreatePasswordHandle] produces. *)
Lemma created_handle salt uid aid pw w h w' :
  CreatePasswordHandle salt uid aid pw w = Some (Some h, w') →
  ∃ key, signing_key w = Some key ∧ signing_key w' = Some key ∧
    length h = sizeof_password_handle_t ∧
    read_version h = Some HANDLE_VERSION ∧
    read_user_id h = Some (uint64 uid) ∧
    read_authenticator_id h = Some (uint64 aid) ∧
    read_salt h = Some (uint64 salt) ∧
    recomputed_signature key h pw =
      ComputePasswordSignature sizeof_signature key (signed_region uid aid pw)
        (uint64 salt) ∧
    read_signature h = Some (recomputed_signature key h pw) ∧
    ∀ pw', recomputed_signature key h pw' =
      ComputePasswordSignature sizeof_signature key (signed_region uid aid pw')
        (uint64 salt).
Proof.
  rewrite CreatePasswordHandle_eq.
  destruct (signing_key w) as [key|] eqn:Hkey; [|discriminate].
  intros Heq. apply (inj Some) in Heq. apply (inj2 pair) in Heq as [Hh <-].
  apply (inj Some) in Hh. subst h. exists key.
  set (sig := ComputePasswordSignature _ _ _ _).
  assert (Hsig : length sig = 32%nat) by apply ComputePasswordSignature_length.
  pose proof (length_le_bytes 8 uid) as HU.
  pose proof (length_le_bytes 8 aid) as HA.
  pose proof (length_le_bytes 8 salt) as HS.
  assert (Hh : [HANDLE_VERSION] ++ le_bytes 8 uid ++ le_bytes 8 aid ++ le_bytes 8 salt ++ sig
               = [HANDLE_VERSION] ++ le_bytes 8 uid ++ le_bytes 8 aid ++ le_bytes 8 salt
                   ++ sig ++ []) by (rewrite app_nil_r; reflexivity).
  rewrite Hh. clear Hh.
  assert (Hrec : ∀ pw', recomputed_signature key
            ([HANDLE_VERSION] ++ le_bytes 8 uid ++ le_bytes 8 aid ++ le_bytes 8 salt
               ++ sig ++ []) pw'
          = ComputePasswordSignature sizeof_signature key (signed_region uid aid pw')
              (uint64 salt)).
  { intros pw'. unfold recomputed_signature.
    rewrite layout_identity, layout_salt_bytes by assumption.
    rewrite le_value_le_bytes. unfold signed_region, sizeof_secure_id_t.
    rewrite <- (app_assoc _ _ pw'). reflexivity. }
  split; [reflexivity|]. split; [exact Hkey|].
  split; [rewrite !length_app, HU, HA, HS, Hsig; reflexivity|].
  split; [reflexivity|].
  unfold uint64, wrap.
  split; [rewrite layout_user_id by assumption; f_equal; apply le_value_le_bytes|].
  split; [rewrite layout_authenticator_id by assumption; f_equal; apply le_value_le_bytes|].
  split; [rewrite layout_salt by assumption; f_equal; apply le_value_le_bytes|].
  split; [apply Hrec|].
  split; [|exact Hrec].
  rewrite layout_signature, Hrec by assumption. reflexivity.
Qed.

(** [DoVerify] on a created handle, with any password: it accepts exactly
    when the two signed regions get the same signature. *)
Lemma DoVerify_created salt uid aid pw w h w' key pw' :
  signing_key w = Some key →
  CreatePasswordHandle salt uid aid pw w = Some (Some h, w') →
  result (DoVerify h (Some pw')) w' =
  Some (bool_decide
          (ComputePasswordSignature sizeof_signature key (signed_region uid aid pw')
             (uint64 salt)
           = ComputePasswordSignature sizeof_signature key (signed_region uid aid pw)
               (uint64 salt))).
Proof.
  intros Hkey Hc.
  destruct (created_handle _ _ _ _ _ _ _ Hc)
    as (key' & Hk & Hk' & Hlen & Hv & _ & _ & _ & Hpw & Hsig & Hany).
  assert (key' = key) as -> by congruence.
  rewrite DoVerify_spec by (rewrite Hlen; reflexivity).
  rewrite Hk', Hv, Hsig, Hpw, (Hany pw'). f_equal.
  apply bool_decide_ext. split.
  - intros [_ E]. apply (inj Some) in E. symmetry. exact E.
  - intros E. rewrite E. split; reflexivity.
Qed.

(** Signatures have [sizeof_signature] bytes and passwords are unbounded:
    whatever the primitive, two passwords share a signature. *)
Lemma signature_collision key uid aid s :
  ∃ pw pw', pw' ≠ pw ∧
    ComputePasswordSignature sizeof_signature key (signed_region uid aid pw') s
    = ComputePasswordSignature sizeof_signature key (signed_region uid aid pw) s.
Proof.
  set (B := { l : list byte | length l = sizeof_signature }).
  set (password := λ i : fin (S (card B)), replicate (fin_to_nat i) x00).
  set (f := λ i : fin (S (card B)),
    (ComputePasswordSignature sizeof_signature key (signed_region uid aid (password i)) s
       ↾ ComputePasswordSignature_length _ _ _ _ : B)).
  destruct (finite_pigeonhole f) as (i1 & i2 & Hne & Hf).
  { rewrite fin_card. lia. }
  exists (password i2), (password i1). split.
  - intros E. apply Hne. apply (inj fin_to_nat).
    apply (f_equal length) in E. unfold password in E.
    rewrite !length_replicate in E. exact E.
  - exact (f_equal proj1_sig Hf).
Qed.

(** Hence on every platform with a signing key some handle verifies with a
    password other than the one it was created for. *)
Lemma DoVerify_accepts_a_colliding_password salt uid aid w key :
  signing_key w = Some key →
  ∃ pw pw' h w',
    pw' ≠ pw ∧
    CreatePasswordHandle salt uid aid pw w = Some (Some h, w') ∧
    result (DoVerify h (Some pw')) w' = Some true.
Proof.
  intros Hkey.
  destruct (signature_collision key uid aid (uint64 salt)) as (pw & pw' & Hne & Hcol).
  pose proof (CreatePasswordHandle_eq salt uid aid pw w) as Hc. rewrite Hkey in Hc.
  eexists pw, pw', _, _. split; [exact Hne|]. split; [exact Hc|].
  rewrite (DoVerify_created _ _ _ _ _ _ _ key pw' Hkey Hc).
  rewrite bool_decide_eq_true_2 by exact Hcol. reflexivity.
Qed.

End Verification.

(** ** Tampering with one bit *)

Section Tampering.

Context `{Platform}.

Lemma alter_neq {A} (f : A → A) (l : list A) i :
  (i < length l)%nat → (∀ x, f x ≠ x) → alter f i l ≠ l.
Proof.
  intros Hi Hf E. destruct (lookup_lt_is_Some_2 l i Hi) as [x Hx].
  pose proof (list_lookup_alter_eq f l i) as Ha.
  rewrite E, Hx in Ha. injection Ha as Ha. exact (Hf x (eq_sym Ha)).
Qed.

Lemma flip_byte_changes i b : flip_byte (i mod 8) b ≠ b.
Proof. apply flip_byte_neq, Nat.mod_upper_bound. discriminate. Qed.

Lemma length_flip_bit i (h : list byte) : length (flip_bit i h) = length h.
Proof. apply length_alter. Qed.

Lemma flip_bit_version i h v :
  (i / 8 = 0)%nat → read_version h = Some v →
  read_version (flip_bit i h) = Some (flip_byte (i mod 8) v).
Proof.
  intros Hj Hv. unfold read_version, flip_bit, offsetof_version in *.
  rewrite Hj, list_lookup_alter_eq, Hv. reflexivity.
Qed.

Lemma flip_bit_keeps_version i h :
  (1 ≤ i / 8)%nat → read_version (flip_bit i h) = read_version h.
Proof.
  intros Hj. unfold read_version, flip_bit, offsetof_version.
  apply list_lookup_alter_ne. lia.
Qed.

Lemma flip_bit_keeps_signature i h :
  (i / 8 < offsetof_signature)%nat →
  read_signature (flip_bit i h) = read_signature h.
Proof.
  intros Hj. unfold read_signature, load. rewrite length_flip_bit.
  case_decide; [|reflexivity]. unfold flip_bit.
  rewrite drop_alter_lt by exact Hj. reflexivity.
Qed.

Lemma flip_bit_changes_signature i h :
  (offsetof_signature ≤ i / 8 < sizeof_password_handle_t)%nat →
  (sizeof_password_handle_t ≤ length h)%nat →
  read_signature (flip_bit i h) ≠ read_signature h.
Proof.
  change offsetof_signature with 25%nat. change sizeof_password_handle_t with 57%nat.
  intros Hj Hlen. unfold read_signature.
  change offsetof_signature with 25%nat. change sizeof_signature with 32%nat.
  unfold load. rewrite length_flip_bit, !decide_True by (simpl; lia).
  unfold flip_bit. rewrite drop_alter_ge, take_alter_lt by lia.
  intros E. apply (inj Some) in E. revert E. apply alter_neq.
  - rewrite length_take, length_drop. lia.
  - intros b. apply flip_byte_changes.
Qed.

Lemma flip_bit_keeps_recomputed_signature key i h pw :
  (offsetof_signature ≤ i / 8)%nat →
  recomputed_signature key (flip_bit i h) pw = recomputed_signature key h pw.
Proof.
  change offsetof_signature with 25%nat. intros Hj.
  unfold recomputed_signature, flip_bit.
  rewrite !drop_alter_ge, !take_alter_ge by lia. reflexivity.
Qed.

Lemma field_of_byte_range j :
  match field_of_byte j with
  | Some Version => (j < 1)%nat
  | Some UserId => (1 ≤ j < 9)%nat
  | Some AuthenticatorId => (9 ≤ j < 17)%nat
  | Some Salt => (17 ≤ j < 25)%nat
  | Some Signature => (25 ≤ j < 57)%nat
  | None => (57 ≤ j)%nat
  end.
Proof.
  unfold field_of_byte.
  change offsetof_user_id with 1%nat. change offsetof_authenticator_id with 9%nat.
  change offsetof_salt with 17%nat. change offsetof_signature with 25%nat.
  change sizeof_password_handle_t with 57%nat.
  repeat case_decide; lia.
Qed.

Section Flip.

Variables (salt uid aid : Z) (pw : list byte) (w w' : World) (h key : list byte).
Hypothesis Hkey : signing_key w = Some key.
Hypothesis Hcreated : CreatePasswordHandle salt uid aid pw w = Some (Some h, w').
Variable i : nat.

(** A flipped bit of the version or of the signature is always detected. *)
Lemma flip_detected :
  (i / 8 < offsetof_user_id ∨
   offsetof_signature ≤ i / 8 < sizeof_password_handle_t)%nat →
  result (DoVerify (flip_bit i h) (Some pw)) w' = Some false.
Proof.
  intros Hj.
  destruct (created_handle _ _ _ _ _ _ _ Hcreated)
    as (key' & Hk & Hk' & Hlen & Hv & _ & _ & _ & _ & Hsig & _).
  rewrite DoVerify_spec by (rewrite length_flip_bit, Hlen; reflexivity).
  rewrite Hk'. f_equal. apply bool_decide_eq_false. intros [Ev Es].
  destruct Hj as [Hj|Hj].
  - change offsetof_user_id with 1%nat in Hj.
    rewrite (flip_bit_version i h HANDLE_VERSION) in Ev by (assumption || lia).
    apply (inj Some) in Ev. exact (flip_byte_changes i _ Ev).
  - rewrite flip_bit_keeps_recomputed_signature in Es by lia.
    rewrite <- Hsig in Es.
    apply (flip_bit_changes_signature i h); [exact Hj|rewrite Hlen; reflexivity|exact Es].
Qed.

(** A flipped bit of the secure id, of the authenticator id or of the
    salt is copied into the rebuilt record: it is detected through the
    signature alone. *)
Lemma flip_resigned :
  (offsetof_user_id ≤ i / 8 < offsetof_signature)%nat →
  result (DoVerify (flip_bit i h) (Some pw)) w' =
  Some (bool_decide (recomputed_signature key (flip_bit i h) pw
                     = recomputed_signature key h pw)).
Proof.
  change offsetof_user_id with 1%nat. intros Hj.
  destruct (created_handle _ _ _ _ _ _ _ Hcreated)
    as (key' & Hk & Hk' & Hlen & Hv & _ & _ & _ & _ & Hsig & _).
  assert (key' = key) as -> by congruence.
  rewrite DoVerify_spec by (rewrite length_flip_bit, Hlen; reflexivity).
  rewrite Hk'. f_equal.
  rewrite flip_bit_keeps_version, flip_bit_keeps_signature, Hv, Hsig by lia.
  apply bool_decide_ext. split.
  - intros [_ E]. apply (inj Some) in E. symmetry. exact E.
  - intros E. rewrite E. split; reflexivity.
Qed.

End Flip.

End Tampering.

(** ** Effects on the state *)

(** [quiet w w']: between [w] and [w'] nothing was drawn from the random
    source and nothing was written to the store; at most signatures were
    computed. *)
Definition quiet (w w' : World) : Prop :=
  entropy w' = entropy w ∧ drawn w' = drawn w ∧
  password_key w' = password_key w ∧ auth_token_key w' = auth_token_key w ∧
  password_files w' = password_files w ∧ tv_sec w' = tv_sec w ∧
  writes (trace w') = writes (trace w).

Section Effects.

Context `{Platform}.

Lemma quiet_refl w : quiet w w.
Proof. repeat split. Qed.

Lemma quiet_log_password_signature key message salt w :
  quiet w (log (CallComputePasswordSignature key message salt) w).
Proof. repeat split. Qed.

Lemma quiet_fresh w w' k n : quiet w w' → fresh w' k n = fresh w k n.
Proof. intros (He&Hd&_). unfold fresh. rewrite He, Hd. reflexivity. Qed.

Lemma CreatePasswordHandle_quiet salt uid aid pw w r w' :
  CreatePasswordHandle salt uid aid pw w = Some (r, w') → quiet w w'.
Proof.
  rewrite CreatePasswordHandle_eq. destruct (signing_key w); intros [= _ <-].
  - apply quiet_log_password_signature.
  - apply quiet_refl.
Qed.

Lemma DoVerify_quiet e password w b w' :
  DoVerify e password w = Some (b, w') → quiet w w'.
Proof.
  unfold DoVerify. destruct password as [pw|]; run.
  - destruct (read_salt e); [|discriminate].
    destruct (read_user_id e); [|discriminate].
    destruct (read_authenticator_id e); [|discriminate].
    destruct (CreatePasswordHandle _ _ _ _ w) as [[[provided|] w0]|] eqn:Hc;
      [| |discriminate].
    + destruct (memcmp_s _ _ _); [|discriminate]. intros [= _ <-].
      exact (CreatePasswordHandle_quiet _ _ _ _ _ _ _ Hc).
    + intros [= _ <-]. exact (CreatePasswordHandle_quiet _ _ _ _ _ _ _ Hc).
  - intros [= _ <-]. apply quiet_refl.
Qed.

(** [ValidatePasswordFile], in closed form: it reads the store and
    accepts exactly a non-empty record equal to the presented handle. *)
Lemma ValidatePasswordFile_eq uid (h : list byte) w :
  ValidatePasswordFile uid (Some h) w =
  Some (match password_files w !! uid with
        | Some stored => bool_decide (stored ≠ [] ∧ stored = h)
        | None => false
        end, w).
Proof.
  unfold ValidatePasswordFile. run.
  destruct (password_files w !! uid) as [stored|]; [|reflexivity].
  case_decide as Hz.
  - apply length_zero_iff_nil in Hz. subst stored.
    rewrite bool_decide_eq_false_2 by (intros [E _]; exact (E eq_refl)). reflexivity.
  - unfold default. cbn [buffer_length from_option id]. case_decide as Hl.
    + unfold memcmp_s. rewrite !load_whole by lia.
      rewrite (take_ge stored), (take_ge h) by lia.
      cbn [mbind option_bind]. do 2 f_equal.
      apply bool_decide_ext. case_decide as E.
      * split; [intros _|reflexivity]. split; [|exact E].
        intros ->. apply Hz. reflexivity.
      * split; [discriminate|]. intros [_ E']. contradiction.
    + rewrite bool_decide_eq_false_2; [reflexivity|].
      intros [_ ->]. apply Hl. reflexivity.
Qed.

Lemma cross_check_fails_iff uid h w :
  cross_check_fails w uid h ↔ ValidatePasswordFile uid (Some h) w = Some (false, w).
Proof.
  rewrite ValidatePasswordFile_eq. unfold cross_check_fails.
  destruct (password_files w !! uid) as [stored|]; [|split; [reflexivity|exact (λ _, I)]].
  split.
  - intros Hf. rewrite bool_decide_eq_false_2; [reflexivity|].
    intros [Hne ->]. destruct Hf as [Hf|Hf]; contradiction.
  - intros E. injection E as E. apply bool_decide_eq_false in E.
    destruct (decide (stored = [])) as [?|Hne]; [left; assumption|].
    right. intros ->. apply E. split; [exact Hne|reflexivity].
Qed.

(** [MintAuthToken] always returns a token, with or without a key. *)
Lemma MintAuthToken_eq ts uid aid w :
  MintAuthToken ts uid aid w =
  let message := le_bytes 8 uid ++ le_bytes 8 aid ++ le_bytes 4 ts in
  Some ({| root_secure_user_id := uint64 uid;
           auxiliary_secure_user_id := uint64 aid;
           timestamp := uint32 ts;
           hmac := ComputeSignature sizeof_signature (auth_token_key w) message |},
        log (CallComputeSignature (auth_token_key w) message) w).
Proof. reflexivity. Qed.

(** [Verify] once the version byte has passed the sanity check and the
    cross-check against the password file has failed. *)
Lemma Verify_unvalidated req pw h w :
  verify_provided_password req = Some pw →
  verify_password_handle req = Some h →
  read_version h = Some HANDLE_VERSION →
  cross_check_fails w (verify_user_id req) h →
  Verify req w =
  match DoVerify h (Some pw) w with
  | Some (true, w1) =>
      match MintAuthToken (uint32 (tv_sec w)) 0 0 w1 with
      | Some (token, w2) => Some (VerificationToken token, w2)
      | None => None
      end
  | Some (false, w1) => Some (VerifyError ERROR_INVALID, w1)
  | None => None
  end.
Proof.
  intros Hpw Hh Hv Hx. apply cross_check_fails_iff in Hx.
  unfold Verify. rewrite Hpw, Hh, Hv. run.
  rewrite decide_False by (intros E; exact (E eq_refl)).
  rewrite Hx. cbn [negb fst snd].
  destruct (DoVerify h (Some pw) w) as [[[|] w1]|]; reflexivity.
Qed.

End Effects.

(** ** Enrollment, step by step *)

Section Enrollment.

Context `{Platform}.

Lemma result_inv {A} (m : M A) w a : result m w = Some a → ∃ w', m w = Some (a, w').
Proof.
  unfold result. destruct (m w) as [[a' w']|]; [|discriminate].
  intros [= ->]. exists w'. reflexivity.
Qed.

Lemma length_fresh w k n : length (fresh w k n) = n.
Proof. unfold fresh. rewrite length_map, length_seq. reflexivity. Qed.

Lemma read_user_id_uint64 e u : read_user_id e = Some u → uint64 u = u.
Proof.
  unfold read_user_id, load.
  change offsetof_user_id with 1%nat. change sizeof_secure_id_t with 8%nat.
  case_decide as Hl; [|discriminate].
  intros [= <-]. apply uint64_le_value.
  rewrite length_take, length_drop. lia.
Qed.

(** No prior handle: a secure id is drawn from the random source. *)
Lemma enroll_identity_new req w :
  enroll_password_handle req = None →
  enroll_identity req w = Some (Some (le_value (fresh w 0 8)), draw 8 w).
Proof. intros Hp. unfold enroll_identity. rewrite Hp. reflexivity. Qed.

(** A prior handle: the secure id is carried over once the handle has
    passed the cross-check and [DoVerify] with the old password. *)
Lemma enroll_identity_prior req prior w r w0 :
  enroll_password_handle req = Some prior →
  enroll_identity req w = Some (r, w0) →
  quiet w w0 ∧
  match r with
  | Some uid =>
      result (ValidatePasswordFile (enroll_user_id req) (Some prior)) w = Some true ∧
      result (DoVerify prior (enrolled_password req)) w = Some true ∧
      read_user_id prior = Some uid
  | None =>
      result (ValidatePasswordFile (enroll_user_id req) (Some prior)) w = Some false ∨
      result (DoVerify prior (enrolled_password req)) w = Some false
  end.
Proof.
  intros Hp. unfold enroll_identity. rewrite Hp. run.
  unfold result. rewrite ValidatePasswordFile_eq.
  set (valid := match password_files w !! _ with Some _ => _ | None => _ end).
  destruct valid; cbn [negb].
  - destruct (DoVerify prior (enrolled_password req) w) as [[[|] w1]|] eqn:Hd;
      [| |discriminate]; cbn [negb].
    + destruct (read_user_id prior) as [uid|]; [|discriminate].
      intros [= <- <-]. split; [exact (DoVerify_quiet _ _ _ _ _ Hd)|].
      repeat split.
    + intros [= <- <-]. split; [exact (DoVerify_quiet _ _ _ _ _ Hd)|].
      right. reflexivity.
  - intros [= <- <-]. split; [apply quiet_refl|]. left. reflexivity.
Qed.

(** The first phase of [Enroll] writes nothing and leaves the keys alone. *)
Lemma enroll_identity_no_write req w r w0 :
  enroll_identity req w = Some (r, w0) →
  password_files w0 = password_files w ∧ writes (trace w0) = writes (trace w).
Proof.
  destruct (enroll_password_handle req) as [prior|] eqn:Hp.
  - intros He. destruct (enroll_identity_prior _ _ _ _ _ Hp He) as [Hq _].
    destruct Hq as (_&_&_&_&Hf&_&Ht). split; assumption.
  - rewrite enroll_identity_new by assumption. intros [= _ <-]. split; reflexivity.
Qed.

(** A successful [Enroll]: an identity was settled, two draws and one
    [CreatePasswordHandle] followed, and the store was written last. *)
Lemma Enroll_success req w h w' :
  Enroll req w = Some (EnrolledPasswordHandle h, w') →
  ∃ np uid w0 wc,
    enroll_provided_password req = Some np ∧
    enroll_identity req w = Some (Some uid, w0) ∧
    CreatePasswordHandle (le_value (fresh w0 0 8)) uid (le_value (fresh w0 8 8)) np
      (draw 8 (draw 8 w0)) = Some (Some h, wc) ∧
    w' = log (CallWritePasswordFile (enroll_user_id req) h)
           (store (enroll_user_id req) h wc).
Proof.
  unfold Enroll. destruct (enroll_provided_password req) as [np|]; [|discriminate].
  run. destruct (enroll_identity req w) as [[[uid|] w0]|]; [| discriminate..].
  change (map (entropy w0) (seq (drawn w0) sizeof_salt_t)) with (fresh w0 0 8).
  change (map (entropy (draw sizeof_salt_t w0))
            (seq (drawn (draw sizeof_salt_t w0)) sizeof_secure_id_t))
    with (fresh w0 8 8).
  change (draw sizeof_secure_id_t (draw sizeof_salt_t w0)) with (draw 8 (draw 8 w0)).
  destruct (CreatePasswordHandle _ _ _ _ _) as [[[created|] wc]|] eqn:Hc;
    [| discriminate..].
  intros E. apply (inj Some) in E. apply (inj2 pair) in E as [Eh <-].
  assert (created = h) as -> by congruence.
  exists np, uid, w0, wc. repeat split. exact Hc.
Qed.

(** A failed [Enroll] wrote nothing. *)
Lemma Enroll_failure req w e w' :
  Enroll req w = Some (EnrollError e, w') →
  password_files w' = password_files w ∧ writes (trace w') = writes (trace w).
Proof.
  unfold Enroll. destruct (enroll_provided_password req) as [np|];
    [|intros [= _ <-]; split; reflexivity].
  run. destruct (enroll_identity req w) as [[[uid|] w0]|] eqn:Hi; [| |discriminate].
  - destruct (enroll_identity_no_write _ _ _ _ Hi) as [Hf Ht].
    destruct (CreatePasswordHandle _ _ _ _ _) as [[[created|] wc]|] eqn:Hc;
      [discriminate| |discriminate].
    intros [= _ <-].
    destruct (CreatePasswordHandle_quiet _ _ _ _ _ _ _ Hc) as (_&_&_&_&Hf'&_&Ht').
    split; [rewrite Hf'; exact Hf|rewrite Ht'; exact Ht].
  - intros [= _ <-]. exact (enroll_identity_no_write _ _ _ _ Hi).
Qed.

End Enrollment.

(** ** Sample data *)

Definition sample_password : list byte := [x61; x62; x63].
Definition other_password : list byte := [x78; x79; x7a].

Definition sample_created : option (option (list byte) * World) :=
  CreatePasswordHandle (H := EchoPlatform) 33 11 22 sample_password boot_world.

Definition sample_handle : list byte :=
  match sample_created with
  | Some (Some h, _) => h
  | _ => []
  end.

Definition sample_world : World :=
  match sample_created with
  | Some (_, w) => w
  | None => boot_world
  end.

Definition sample_key : list byte := [x70; x77; x6b].

(** A request to verify [sample_handle] for a user without a password file. *)
Definition sample_verify : VerifyRequest :=
  {| verify_user_id := 8;
     verify_password_handle := Some sample_handle;
     verify_provided_password := Some sample_password |}.

(** The same request with one byte appended to the handle. *)
Definition oversized_verify : VerifyRequest :=
  {| verify_user_id := 8;
     verify_password_handle := Some (sample_handle ++ [x00]);
     verify_provided_password := Some sample_password |}.

(** A handle whose version byte is 1. *)
Definition stale_handle : list byte := x01 :: drop 1 sample_handle.

Definition stale_verify : VerifyRequest :=
  {| verify_user_id := 8;
     verify_password_handle := Some stale_handle;
     verify_provided_password := Some sample_password |}.

(** A first enrollment, and the state it leaves. *)
Definition first_enroll : EnrollRequest :=
  {| enroll_user_id := 7;
     enroll_password_handle := None;
     enrolled_password := None;
     enroll_provided_password := Some sample_password |}.

Definition enrolled : option (EnrollResponse * World) :=
  Enroll (H := EchoPlatform) first_enroll boot_world.

Definition enrolled_handle : list byte :=
  match enrolled with
  | Some (EnrolledPasswordHandle h, _) => h
  | _ => []
  end.

Definition enrolled_world : World :=
  match enrolled with
  | Some (_, w) => w
  | None => boot_world
  end.

(** Re-enrollment with the right old password, with a wrong one, and with
    a prior handle of another version. *)
Definition second_enroll : EnrollRequest :=
  {| enroll_user_id := 7;
     enroll_password_handle := Some enrolled_handle;
     enrolled_password := Some sample_password;
     enroll_provided_password := Some other_password |}.

Definition rejected_enroll : EnrollRequest :=
  {| enroll_user_id := 7;
     enroll_password_handle := Some enrolled_handle;
     enrolled_password := Some other_password;
     enroll_provided_password := Some other_password |}.







(** The boot state of a device whose auth-token key service has no key. *)
Definition keyless_world : World :=
  {| entropy := entropy boot_world; drawn := 0;
     password_key := password_key boot_world;
     auth_token_key := None;
     password_files := ∅;
     tv_sec := tv_sec boot_world; trace := [] |}.

(** * The claims *)

Section Claims.

Context `{Platform}.

(** C1.  A [Verify] call whose handle passes the version check and whose
    cross-check against the password file fails (no record, an empty
    record or a different record) is decided by [DoVerify] all the same:
    where [DoVerify] accepts, the response is a token whose
    [root_secure_user_id] and [auxiliary_secure_user_id] are both 0,
    whatever the identity fields of the handle; where it rejects, the
    response is [ERROR_INVALID]. *)
Theorem Verify_unvalidated_file_zero_identity req pw h w :
  verify_provided_password req = Some pw →
  verify_password_handle req = Some h →
  read_version h = Some HANDLE_VERSION →
  cross_check_fails w (verify_user_id req) h →
  match DoVerify h (Some pw) w with
  | Some (true, w1) =>
      ∃ token w2, Verify req w = Some (VerificationToken token, w2) ∧
        root_secure_user_id token = 0 ∧ auxiliary_secure_user_id token = 0
  | Some (false, w1) => Verify req w = Some (VerifyError ERROR_INVALID, w1)
  | None => Verify req w = None
  end.
Proof.
  intros Hpw Hh Hv Hx. rewrite (Verify_unvalidated req pw h w Hpw Hh Hv Hx).
  destruct (DoVerify h (Some pw) w) as [[[|] w1]|]; [|reflexivity..].
  rewrite MintAuthToken_eq. cbn zeta. eexists _, _.
  split; [reflexivity|]. split; reflexivity.
Qed.

(** C6, as the code has it.  [Verify] checks the version byte of the
    candidate handle before anything else: when both buffers are present
    and the version byte differs from [HANDLE_VERSION], the response is
    [ERROR_INVALID] and neither the store nor a signature was consulted.
    The length of the handle is not compared with
    [sizeof (password_handle_t)]. *)
Theorem Verify_rejects_other_version req pw h v w :
  verify_provided_password req = Some pw →
  verify_password_handle req = Some h →
  read_version h = Some v →
  v ≠ HANDLE_VERSION →
  Verify req w = Some (VerifyError ERROR_INVALID, w).
Proof.
  intros Hpw Hh Hv Hne. unfold Verify. rewrite Hpw, Hh, Hv. run.
  rewrite decide_True by exact Hne. reflexivity.
Qed.

(** C8.  [CreatePasswordHandle] hands to the signature primitive exactly
    the version byte, the bytes of the secure id, the bytes of the
    authenticator id and the password, in this order; the salt goes in as
    the salt argument only, and the signature field is the output.  With
    no usable key the primitive is not called. *)
Theorem CreatePasswordHandle_signed_bytes salt uid aid pw w :
  match signing_key w with
  | Some key =>
      let message := [HANDLE_VERSION] ++ le_bytes 8 uid ++ le_bytes 8 aid ++ pw in
      let sig := ComputePasswordSignature sizeof_signature key message (uint64 salt) in
      CreatePasswordHandle salt uid aid pw w =
      Some (Some ([HANDLE_VERSION] ++ le_bytes 8 uid ++ le_bytes 8 aid
                    ++ le_bytes 8 salt ++ sig),
            log (CallComputePasswordSignature key message (uint64 salt)) w)
  | None => CreatePasswordHandle salt uid aid pw w = Some (None, w)
  end.
Proof.
  rewrite CreatePasswordHandle_eq. destruct (signing_key w); reflexivity.
Qed.

End Claims.

(** C1 at [sample_verify]: user 8 has no password file. *)
Lemma Verify_unvalidated_file_zero_identity_witness :
  ∃ token w2,
    Verify sample_verify boot_world = Some (VerificationToken token, w2) ∧
    root_secure_user_id token = 0 ∧ auxiliary_secure_user_id token = 0.
Proof.
  pose proof (Verify_unvalidated_file_zero_identity sample_verify sample_password
                sample_handle boot_world eq_refl eq_refl eq_refl I) as T.
  vm_compute in T. vm_compute. exact T.
Defined.

(** C6 at [stale_verify]. *)
Lemma Verify_rejects_other_version_witness :
  Verify stale_verify boot_world = Some (VerifyError ERROR_INVALID, boot_world).
Proof.
  apply (Verify_rejects_other_version stale_verify sample_password stale_handle x01).
  - reflexivity.
  - reflexivity.
  - reflexivity.
  - discriminate.
Defined.

(** C6 as stated fails: a handle of 58 bytes, one more than
    [sizeof (password_handle_t)], is verified and answered with a token. *)
Lemma Verify_accepts_oversized_handle :
  buffer_length (verify_password_handle oversized_verify) = 58%nat ∧
  sizeof_password_handle_t = 57%nat ∧
  ∃ token, result (Verify oversized_verify) boot_world = Some (VerificationToken token).
Proof.
  split; [reflexivity|]. split; [reflexivity|].
  eexists. vm_compute. reflexivity.
Qed.

(** C7 on the code: with a correct password and no auth-token key,
    [Verify] answers with a token (signed under the null key) and not with
    an error. *)
Theorem Verify_mints_token_without_auth_token_key :
  auth_token_key keyless_world = None ∧
  result (DoVerify sample_handle (Some sample_password)) keyless_world = Some true ∧
  ∃ token, result (Verify sample_verify) keyless_world = Some (VerificationToken token).
Proof.
  split; [reflexivity|]. split; [vm_compute; reflexivity|].
  eexists. vm_compute. reflexivity.
Qed.

Section SignatureClaims.

Context `{Platform}.

(** C3, as the code has it.  The handle [CreatePasswordHandle] produces
    for salt, secure id, authenticator id and password [pw] verifies under
    [DoVerify] with [pw].  With any password [pw'], [DoVerify] accepts
    exactly when the signature of the signed region built from [pw'] is
    the signature of the one built from [pw]: for [pw' ≠ pw] it rejects
    if and only if the primitive tells the two regions apart, which
    determinism alone does not promise. *)
Theorem DoVerify_created_handle salt uid aid pw w h w' key :
  signing_key w = Some key →
  CreatePasswordHandle salt uid aid pw w = Some (Some h, w') →
  result (DoVerify h (Some pw)) w' = Some true ∧
  ∀ pw',
    result (DoVerify h (Some pw')) w' =
    Some (bool_decide
            (ComputePasswordSignature sizeof_signature key (signed_region uid aid pw')
               (uint64 salt)
             = ComputePasswordSignature sizeof_signature key (signed_region uid aid pw)
                 (uint64 salt))).
Proof.
  intros Hkey Hc. split.
  - rewrite (DoVerify_created _ _ _ _ _ _ _ key pw Hkey Hc).
    rewrite bool_decide_eq_true_2; reflexivity.
  - intros pw'. exact (DoVerify_created _ _ _ _ _ _ _ key pw' Hkey Hc).
Qed.

(** C2, as the code has it.  In a handle produced by
    [CreatePasswordHandle], a flipped bit of the signature field or of the
    version byte makes [DoVerify] with the original password return
    [false].  A flipped bit of the secure id or of the authenticator id is
    copied into the record [DoVerify] rebuilds, so it is detected through
    the signature only: [DoVerify] returns [false] if and only if the
    signature recomputed over the altered fields differs from the stored
    one. *)
Theorem DoVerify_tampered_handle salt uid aid pw w h w' key i :
  signing_key w = Some key →
  CreatePasswordHandle salt uid aid pw w = Some (Some h, w') →
  match field_of_bit i with
  | Some Version | Some Signature =>
      result (DoVerify (flip_bit i h) (Some pw)) w' = Some false
  | Some UserId | Some AuthenticatorId =>
      result (DoVerify (flip_bit i h) (Some pw)) w' =
      Some (bool_decide (recomputed_signature key (flip_bit i h) pw
                         = recomputed_signature key h pw))
  | Some Salt | None => True
  end.
Proof.
  intros Hkey Hc. unfold field_of_bit.
  pose proof (field_of_byte_range (i / 8)) as Hj.
  destruct (field_of_byte (i / 8)) as [[| | | |]|]; try exact I.
  - apply (flip_detected _ _ _ _ _ _ _ Hc). left. exact Hj.
  - apply (flip_resigned _ _ _ _ _ _ _ _ Hkey Hc).
    change offsetof_user_id with 1%nat. change offsetof_signature with 25%nat. lia.
  - apply (flip_resigned _ _ _ _ _ _ _ _ Hkey Hc).
    change offsetof_user_id with 1%nat. change offsetof_signature with 25%nat. lia.
  - apply (flip_detected _ _ _ _ _ _ _ Hc). right. exact Hj.
Qed.

(** C9, as the code has it.  [DoVerify] compares all
    [sizeof (password_handle_t)] bytes of the record it rebuilds with the
    presented handle, not the signature field alone.  The identity fields
    and the salt of the rebuilt record are those of the presented handle,
    so the comparison of the salt field cannot fail: a flipped bit of the
    salt makes [DoVerify] with the correct password return [false] if and
    only if the signature recomputed under the altered salt differs from
    the stored one. *)
Theorem DoVerify_tampered_salt salt uid aid pw w h w' key i :
  signing_key w = Some key →
  CreatePasswordHandle salt uid aid pw w = Some (Some h, w') →
  field_of_bit i = Some Salt →
  let h' := flip_bit i h in
  result (DoVerify h' (Some pw)) w' =
    Some (bool_decide (take sizeof_password_handle_t h' = recomputed_handle key h' pw)) ∧
  take 24 (drop 1 (recomputed_handle key h' pw)) = take 24 (drop 1 h') ∧
  result (DoVerify h' (Some pw)) w' =
    Some (bool_decide (recomputed_signature key h' pw = recomputed_signature key h pw)).
Proof.
  intros Hkey Hc Hf h'.
  destruct (created_handle _ _ _ _ _ _ _ Hc)
    as (key' & Hk & Hk' & Hlen & _).
  assert (key' = key) as -> by congruence.
  assert (Hlen' : length h' = 57%nat) by (unfold h'; rewrite length_flip_bit; exact Hlen).
  split; [|split].
  - rewrite DoVerify_whole_record by (rewrite Hlen'; reflexivity).
    rewrite Hk'. reflexivity.
  - unfold recomputed_handle. cbn [drop]. rewrite drop_0.
    apply take_app_length'. rewrite length_take, length_drop, Hlen'. reflexivity.
  - apply (flip_resigned _ _ _ _ _ _ _ _ Hkey Hc).
    pose proof (field_of_byte_range (i / 8)) as Hj.
    unfold field_of_bit in Hf. rewrite Hf in Hj.
    change offsetof_user_id with 1%nat. change offsetof_signature with 25%nat. lia.
Qed.

End SignatureClaims.

(** C3 at [sample_handle] on [EchoPlatform]: the right password is
    accepted, [other_password] is rejected. *)
Lemma DoVerify_created_handle_witness :
  result (DoVerify sample_handle (Some sample_password)) sample_world = Some true ∧
  result (DoVerify sample_handle (Some other_password)) sample_world = Some false.
Proof.
  destruct (DoVerify_created_handle 33 11 22 sample_password boot_world sample_handle
              sample_world sample_key eq_refl eq_refl) as [Hsame Hany].
  split; [exact Hsame|]. rewrite (Hany other_password). vm_compute. reflexivity.
Defined.

(** C3 as stated fails on [ZeroPlatform], whose signatures are
    deterministic: the handle created for [sample_password] verifies with
    [other_password]. *)
Lemma DoVerify_accepts_other_password :
  other_password ≠ sample_password ∧
  match CreatePasswordHandle (H := ZeroPlatform) 33 11 22 sample_password boot_world with
  | Some (Some h, w') =>
      result (DoVerify (H := ZeroPlatform) h (Some other_password)) w' = Some true
  | _ => False
  end.
Proof. split; [discriminate|]. vm_compute. reflexivity. Qed.

(** C2 at [sample_handle] on [EchoPlatform]: bit 8 is the lowest bit of the
    secure id, and flipping it is detected. *)
Lemma DoVerify_tampered_handle_witness :
  result (DoVerify (flip_bit 8 sample_handle) (Some sample_password)) sample_world
  = Some false.
Proof.
  pose proof (DoVerify_tampered_handle 33 11 22 sample_password boot_world sample_handle
                sample_world sample_key 8 eq_refl eq_refl) as T.
  vm_compute in T. vm_compute. exact T.
Defined.

(** C2 as stated fails on [ZeroPlatform]: the lowest bit of the secure id
    of a valid handle is flipped and [DoVerify] still accepts. *)
Lemma DoVerify_accepts_flipped_secure_id :
  field_of_bit 8 = Some UserId ∧
  match CreatePasswordHandle (H := ZeroPlatform) 33 11 22 sample_password boot_world with
  | Some (Some h, w') =>
      flip_bit 8 h ≠ h ∧
      result (DoVerify (H := ZeroPlatform) (flip_bit 8 h) (Some sample_password)) w'
      = Some true
  | _ => False
  end.
Proof.
  split; [reflexivity|]. vm_compute. split; [discriminate|reflexivity].
Qed.

(** C9 at [sample_handle] on [EchoPlatform]: bit 136 is the lowest bit of
    the salt, and flipping it is detected through the signature. *)
Lemma DoVerify_tampered_salt_witness :
  result (DoVerify (flip_bit 136 sample_handle) (Some sample_password)) sample_world
  = Some false.
Proof.
  destruct (DoVerify_tampered_salt 33 11 22 sample_password boot_world sample_handle
              sample_world sample_key 136 eq_refl eq_refl eq_refl) as (_ & _ & T).
  vm_compute in T. vm_compute. exact T.
Defined.

(** C9 as stated fails on [SaltBlindPlatform]: the lowest bit of the salt
    of a valid handle is flipped and [DoVerify] still accepts. *)
Lemma DoVerify_accepts_flipped_salt :
  field_of_bit 136 = Some Salt ∧
  match CreatePasswordHandle (H := SaltBlindPlatform) 33 11 22 sample_password boot_world
  with
  | Some (Some h, w') =>
      flip_bit 136 h ≠ h ∧
      result (DoVerify (H := SaltBlindPlatform) (flip_bit 136 h) (Some sample_password)) w'
      = Some true
  | _ => False
  end.
Proof.
  split; [reflexivity|]. vm_compute. split; [discriminate|reflexivity].
Qed.

Section EnrollClaims.

Context `{Platform}.

(** C4.  After a successful [Enroll]: with a prior handle, the handle
    passed the cross-check and [DoVerify] with the old password, and the
    new handle carries the secure id of the prior one; with no prior
    handle the secure id is drawn from the random source.  In both cases
    the salt and the authenticator id of the new handle are the next two
    draws from the random source. *)
Theorem Enroll_identity_continuity req w h w' :
  Enroll req w = Some (EnrolledPasswordHandle h, w') →
  match enroll_password_handle req with
  | Some prior =>
      result (ValidatePasswordFile (enroll_user_id req) (Some prior)) w = Some true ∧
      result (DoVerify prior (enrolled_password req)) w = Some true ∧
      read_user_id h = read_user_id prior ∧
      read_salt h = Some (le_value (fresh w 0 8)) ∧
      read_authenticator_id h = Some (le_value (fresh w 8 8))
  | None =>
      read_user_id h = Some (le_value (fresh w 0 8)) ∧
      read_salt h = Some (le_value (fresh w 8 8)) ∧
      read_authenticator_id h = Some (le_value (fresh w 16 8))
  end.
Proof.
  intros He.
  destruct (Enroll_success _ _ _ _ He) as (np & uid & w0 & wc & Hnp & Hi & Hc & _).
  destruct (created_handle _ _ _ _ _ _ _ Hc)
    as (key & _ & _ & _ & _ & Hu & Ha & Hs & _).
  rewrite uint64_le_value in Ha by apply length_fresh.
  rewrite uint64_le_value in Hs by apply length_fresh.
  destruct (enroll_password_handle req) as [prior|] eqn:Hp.
  - destruct (enroll_identity_prior _ _ _ _ _ Hp Hi) as (Hq & Hvalid & Hverified & Hprior).
    rewrite (read_user_id_uint64 _ _ Hprior) in Hu.
    rewrite (quiet_fresh _ _ _ _ Hq) in Ha.
    rewrite (quiet_fresh _ _ _ _ Hq) in Hs.
    repeat split; try assumption. congruence.
  - rewrite enroll_identity_new in Hi by assumption.
    apply (inj Some) in Hi. apply (inj2 pair) in Hi as [Hu' <-].
    apply (inj Some) in Hu'. subst uid.
    rewrite uint64_le_value in Hu by apply length_fresh.
    repeat split; assumption.
Qed.

(** C5.  An [Enroll] call that ends in an error has not called
    [WritePasswordFile]: the store and the sequence of writes are as they
    were.  A call that succeeds has called it once, as its last call to a
    collaborator, with the handle it returns. *)
Theorem Enroll_writes_only_on_success req w r w' :
  Enroll req w = Some (r, w') →
  match r with
  | EnrollError _ =>
      password_files w' = password_files w ∧ writes (trace w') = writes (trace w)
  | EnrolledPasswordHandle h =>
      ∃ t, trace w' = CallWritePasswordFile (enroll_user_id req) h :: t ∧
           writes t = writes (trace w) ∧
           password_files w' = <[enroll_user_id req := h]> (password_files w)
  end.
Proof.
  destruct r as [e|h]; intros He.
  - exact (Enroll_failure _ _ _ _ He).
  - destruct (Enroll_success _ _ _ _ He) as (np & uid & w0 & wc & _ & Hi & Hc & ->).
    destruct (enroll_identity_no_write _ _ _ _ Hi) as [Hf Ht].
    destruct (CreatePasswordHandle_quiet _ _ _ _ _ _ _ Hc) as (_&_&_&_&Hf'&_&Ht').
    exists (trace wc). split; [reflexivity|].
    split; [rewrite Ht'; exact Ht|].
    cbn [password_files log store]. rewrite Hf'. cbn [password_files draw].
    rewrite Hf. reflexivity.
Qed.


End EnrollClaims.

(** C4 at [second_enroll]: the handle of [first_enroll] is presented with
    its password, and the new handle keeps its secure id. *)
Lemma Enroll_identity_continuity_witness :
  ∃ h w',
    Enroll second_enroll enrolled_world = Some (EnrolledPasswordHandle h, w') ∧
    read_user_id h = read_user_id enrolled_handle ∧
    read_salt h = Some (le_value (fresh enrolled_world 0 8)) ∧
    read_authenticator_id h = Some (le_value (fresh enrolled_world 8 8)).
Proof.
  destruct (Enroll second_enroll enrolled_world) as [[[e|h] w']|] eqn:He;
    [vm_compute in He; discriminate He| |vm_compute in He; discriminate He].
  exists h, w'. split; [reflexivity|].
  pose proof (Enroll_identity_continuity second_enroll enrolled_world h w' He) as T.
  cbn [enroll_password_handle second_enroll] in T. tauto.
Defined.

(** C5 at [rejected_enroll]: the old password is wrong. *)
Lemma Enroll_writes_only_on_success_witness :
  ∃ w', Enroll rejected_enroll enrolled_world = Some (EnrollError ERROR_INVALID, w') ∧
        password_files w' = password_files enrolled_world ∧
        writes (trace w') = writes (trace enrolled_world).
Proof.
  destruct (Enroll rejected_enroll enrolled_world) as [[[[|] |h] w']|] eqn:He;
    [vm_compute in He; discriminate He| |vm_compute in He; discriminate He..].
  exists w'. split; [reflexivity|].
  exact (Enroll_writes_only_on_success rejected_enroll enrolled_world _ w' He).
Defined.




(** * Further properties of the member functions *)

Section MoreEffects.

Context `{Platform}.

Lemma read_authenticator_id_uint64 e a : read_authenticator_id e = Some a → uint64 a = a.
Proof.
  unfold read_authenticator_id, load.
  change offsetof_authenticator_id with 9%nat. change sizeof_secure_id_t with 8%nat.
  case_decide as Hl; [|discriminate].
  intros [= <-]. apply uint64_le_value.
  rewrite length_take, length_drop. lia.
Qed.

Lemma uint32_uint32 z : uint32 (uint32 z) = uint32 z.
Proof. unfold uint32, wrap. apply Z.mod_mod. lia. Qed.

Lemma quiet_password_key w w' : quiet w w' → signing_key w' = signing_key w.
Proof. intros (_&_&Hk&_). unfold signing_key. rewrite Hk. reflexivity. Qed.

Lemma quiet_step w1 w2 w3 : quiet w1 w2 → quiet w2 w3 → quiet w1 w3.
Proof.
  unfold quiet. intros (?&?&?&?&?&?&?) (?&?&?&?&?&?&?).
  repeat split; congruence.
Qed.

Lemma MintAuthToken_quiet ts uid aid w t w' :
  MintAuthToken ts uid aid w = Some (t, w') → quiet w w'.
Proof. rewrite MintAuthToken_eq. cbn zeta. intros [= _ <-]. repeat split. Qed.

(** [ValidatePasswordFile] with any presented buffer, null or not. *)
Lemma ValidatePasswordFile_any uid provided w :
  ValidatePasswordFile uid provided w =
  Some (match password_files w !! uid, provided with
        | Some stored, Some h => bool_decide (stored ≠ [] ∧ stored = h)
        | _, _ => false
        end, w).
Proof.
  destruct provided as [h|]; [apply ValidatePasswordFile_eq|].
  unfold ValidatePasswordFile. run.
  destruct (password_files w !! uid) as [stored|]; [|reflexivity].
  case_decide; [reflexivity|]. cbn [buffer_length].
  rewrite decide_False by assumption. reflexivity.
Qed.

(** [DoVerify] in a state without a signing key. *)
Lemma DoVerify_without_key e password w b w' :
  signing_key w = None → DoVerify e password w = Some (b, w') → b = false.
Proof.
  intros Hkey. unfold DoVerify. destruct password as [pw|]; [|run; congruence].
  run. destruct (read_salt e); [|discriminate].
  destruct (read_user_id e); [|discriminate].
  destruct (read_authenticator_id e); [|discriminate].
  rewrite CreatePasswordHandle_eq, Hkey. congruence.
Qed.

(** [Verify] once the version byte has passed the sanity check and the
    presented handle is the stored record. *)
Lemma Verify_validated req pw h w u a :
  verify_provided_password req = Some pw →
  verify_password_handle req = Some h →
  read_version h = Some HANDLE_VERSION →
  password_files w !! verify_user_id req = Some h →
  read_user_id h = Some u →
  read_authenticator_id h = Some a →
  Verify req w =
  match DoVerify h (Some pw) w with
  | Some (true, w1) =>
      match MintAuthToken (uint32 (tv_sec w)) u a w1 with
      | Some (token, w2) => Some (VerificationToken token, w2)
      | None => None
      end
  | Some (false, w1) => Some (VerifyError ERROR_INVALID, w1)
  | None => None
  end.
Proof.
  intros Hpw Hh Hv Hf Hu Ha.
  assert (Hne : h ≠ []) by (intros ->; discriminate Hv).
  unfold Verify. rewrite Hpw, Hh, Hv. run.
  rewrite decide_False by (intros E; exact (E eq_refl)).
  rewrite ValidatePasswordFile_eq, Hf.
  rewrite bool_decide_eq_true_2 by (split; [exact Hne|reflexivity]).
  cbn [negb]. rewrite Hu, Ha. cbn [fst snd].
  destruct (DoVerify h (Some pw) w) as [[[|] w1]|]; reflexivity.
Qed.

End MoreEffects.

Section HandleProperties.

Context `{Platform}.

(** X1.  [ValidatePasswordFile] leaves the state as it is and answers
    [true] exactly when the presented buffer is not null, is not empty and
    is byte for byte the record stored for the user. *)
Theorem ValidatePasswordFile_accepts_exactly_stored uid provided w :
  ∃ b, ValidatePasswordFile uid provided w = Some (b, w) ∧
       (b = true ↔
        ∃ h, provided = Some h ∧ h ≠ [] ∧ password_files w !! uid = Some h).
Proof.
  rewrite ValidatePasswordFile_any. eexists. split; [reflexivity|].
  destruct (password_files w !! uid) as [stored|], provided as [h|].
  - rewrite bool_decide_eq_true. split.
    + intros [Hne ->]. exists h. repeat split; assumption || reflexivity.
    + intros (h' & [= <-] & Hne & [= ->]). split; [exact Hne|reflexivity].
  - split; [discriminate|]. intros (h' & Hh & _). discriminate Hh.
  - split; [discriminate|]. intros (h' & _ & _ & Hf). discriminate Hf.
  - split; [discriminate|]. intros (h' & Hh & _). discriminate Hh.
Qed.

(** X2.  [DoVerify] looks at the first [sizeof (password_handle_t)] bytes
    of the presented buffer only: bytes after the record change neither its
    answer nor its calls. *)
Theorem DoVerify_ignores_trailing_bytes e password w :
  (sizeof_password_handle_t ≤ length e)%nat →
  DoVerify (take sizeof_password_handle_t e) password w = DoVerify e password w.
Proof.
  intros Hlen. destruct password as [pw|]; [|reflexivity].
  destruct (handle_split e Hlen) as (v & U & A & S & G & rest & -> & HU & HA & HS & HG).
  pose proof (layout_record v U A S G rest HU HA HS HG) as Hrec.
  rewrite load_whole in Hrec by exact Hlen. apply (inj Some) in Hrec. rewrite Hrec.
  rewrite <- (app_nil_r G) at 1.
  rewrite !DoVerify_layout by assumption. reflexivity.
Qed.

(** X3.  The fields read back from a handle that [CreatePasswordHandle]
    has filled are the current version, the secure id, the authenticator id
    and the salt it was given (as 64-bit values), and the signature of the
    signed region under that salt; the handle has
    [sizeof (password_handle_t)] bytes. *)
Theorem CreatePasswordHandle_reads_back s uid aid pw w h w' :
  CreatePasswordHandle s uid aid pw w = Some (Some h, w') →
  length h = sizeof_password_handle_t ∧
  read_version h = Some HANDLE_VERSION ∧
  read_user_id h = Some (uint64 uid) ∧
  read_authenticator_id h = Some (uint64 aid) ∧
  read_salt h = Some (uint64 s) ∧
  ∃ key, signing_key w = Some key ∧
    read_signature h =
    Some (ComputePasswordSignature sizeof_signature key (signed_region uid aid pw)
            (uint64 s)).
Proof.
  intros Hc.
  destruct (created_handle _ _ _ _ _ _ _ Hc)
    as (key & Hk & _ & Hlen & Hv & Hu & Ha & Hs & Hpw & Hsig & _).
  repeat (split; [assumption|]). exists key. split; [exact Hk|].
  rewrite Hsig, Hpw. reflexivity.
Qed.

(** X4.  What [DoVerify] accepts: the password buffer is not null, a
    signing key is available, the presented buffer holds a whole record
    with the current version byte, and its signature field is the signature
    recomputed from its own identity fields, its salt and the password. *)
Theorem DoVerify_accepts_only e password w w' :
  DoVerify e password w = Some (true, w') →
  (sizeof_password_handle_t ≤ length e)%nat ∧
  read_version e = Some HANDLE_VERSION ∧
  ∃ pw key, password = Some pw ∧ signing_key w = Some key ∧
    read_signature e = Some (recomputed_signature key e pw) ∧
    w' = log (CallComputePasswordSignature key
                (HANDLE_VERSION :: take 16 (drop 1 e) ++ pw)
                (le_value (take 8 (drop 17 e)))) w.
Proof.
  intros Hd. pose proof (DoVerify_true_length _ _ _ _ Hd) as Hlen.
  split; [exact Hlen|].
  destruct password as [pw|]; [|discriminate Hd].
  pose proof (result_Some _ _ _ _ Hd) as Hr.
  rewrite DoVerify_spec in Hr by exact Hlen.
  destruct (signing_key w) as [key|] eqn:Hkey; [|discriminate Hr].
  apply (inj Some) in Hr. apply bool_decide_eq_true in Hr as [Hv Hs].
  split; [exact Hv|]. exists pw, key. repeat split; try assumption.
  destruct (handle_split e Hlen) as (v & U & A & S & G & rest & -> & HU & HA & HS & HG).
  rewrite DoVerify_layout, Hkey in Hd by assumption. cbn zeta in Hd.
  apply (inj Some) in Hd. apply (inj2 pair) in Hd as [_ <-].
  rewrite layout_identity, layout_salt_bytes by assumption.
  rewrite <- (app_assoc U A pw). reflexivity.
Qed.

End HandleProperties.

(** The identity [Verify] passes to [MintAuthToken]: the identity fields of
    the handle when it is the stored record, 0 and 0 otherwise; [None] when
    the fields lie past the end of the buffer. *)
Definition token_identity (w : World) (uid : N) (h : list byte)
    : option (secure_id_t * secure_id_t) :=
  match password_files w !! uid with
  | Some stored =>
      if bool_decide (stored ≠ [] ∧ stored = h) then
        u ← read_user_id h; a ← read_authenticator_id h; Some (u, a)
      else Some (0, 0)
  | None => Some (0, 0)
  end.

Section VerifyProperties.

Context `{Platform}.

(** [Verify], in closed form. *)
Lemma Verify_eq req w :
  Verify req w =
  match verify_provided_password req, verify_password_handle req with
  | Some pw, Some h =>
      match read_version h with
      | None => None
      | Some v =>
          if decide (v ≠ HANDLE_VERSION) then Some (VerifyError ERROR_INVALID, w)
          else
            match token_identity w (verify_user_id req) h with
            | None => None
            | Some (u, a) =>
                match DoVerify h (Some pw) w with
                | Some (true, w1) =>
                    match MintAuthToken (uint32 (tv_sec w)) u a w1 with
                    | Some (token, w2) => Some (VerificationToken token, w2)
                    | None => None
                    end
                | Some (false, w1) => Some (VerifyError ERROR_INVALID, w1)
                | None => None
                end
            end
      end
  | _, _ => Some (VerifyError ERROR_INVALID, w)
  end.
Proof.
  unfold Verify.
  destruct (verify_provided_password req) as [pw|]; [|reflexivity].
  destruct (verify_password_handle req) as [h|]; [|reflexivity].
  run. destruct (read_version h) as [v|]; [|reflexivity].
  case_decide; [reflexivity|].
  rewrite ValidatePasswordFile_eq. unfold token_identity.
  destruct (password_files w !! verify_user_id req) as [stored|].
  - destruct (bool_decide (stored ≠ [] ∧ stored = h)); cbn [negb].
    + destruct (read_user_id h) as [u|]; [|reflexivity].
      destruct (read_authenticator_id h) as [a|]; [|reflexivity].
      cbn [mbind option_bind fst snd].
      destruct (DoVerify h (Some pw) w) as [[[|] w1]|]; reflexivity.
    + cbn [fst snd]. destruct (DoVerify h (Some pw) w) as [[[|] w1]|]; reflexivity.
  - cbn [negb fst snd]. destruct (DoVerify h (Some pw) w) as [[[|] w1]|]; reflexivity.
Qed.

Lemma token_identity_cases w uid h u a :
  token_identity w uid h = Some (u, a) →
  (cross_check_fails w uid h ∧ u = 0 ∧ a = 0) ∨
  (password_files w !! uid = Some h ∧ read_user_id h = Some u ∧
   read_authenticator_id h = Some a).
Proof.
  unfold token_identity, cross_check_fails.
  destruct (password_files w !! uid) as [stored|]; [|intros [= <- <-]; left; auto].
  destruct (bool_decide (stored ≠ [] ∧ stored = h)) eqn:Hb.
  - apply bool_decide_eq_true in Hb as [_ ->].
    destruct (read_user_id h) as [u'|]; [|discriminate].
    destruct (read_authenticator_id h) as [a'|]; [|discriminate].
    intros [= <- <-]. right. auto.
  - apply bool_decide_eq_false in Hb. intros [= <- <-]. left.
    split; [|auto]. destruct (decide (stored = [])) as [?|Hne]; [left; assumption|].
    right. intros ->. apply Hb. split; [exact Hne|reflexivity].
Qed.

(** X5.  [Verify] answers with a token only for a handle with the current
    version byte that [DoVerify] has accepted with the presented password.
    The token's timestamp is the clock's seconds truncated to 32 bits, and
    its identity is either 0 and 0, the cross-check having failed, or the
    secure id and the authenticator id of the handle, the handle being the
    stored record. *)
Theorem Verify_token_only_if_verified req w token w' :
  Verify req w = Some (VerificationToken token, w') →
  ∃ pw h w1,
    verify_provided_password req = Some pw ∧
    verify_password_handle req = Some h ∧
    read_version h = Some HANDLE_VERSION ∧
    DoVerify h (Some pw) w = Some (true, w1) ∧
    timestamp token = tv_sec w mod 2 ^ 32 ∧
    ((cross_check_fails w (verify_user_id req) h ∧
      root_secure_user_id token = 0 ∧ auxiliary_secure_user_id token = 0) ∨
     (password_files w !! verify_user_id req = Some h ∧
      read_user_id h = Some (root_secure_user_id token) ∧
      read_authenticator_id h = Some (auxiliary_secure_user_id token))).
Proof.
  rewrite Verify_eq.
  destruct (verify_provided_password req) as [pw|]; [|discriminate].
  destruct (verify_password_handle req) as [h|]; [|discriminate].
  destruct (read_version h) as [v|] eqn:Hv; [|discriminate].
  case_decide as Hne; [discriminate|].
  assert (v = HANDLE_VERSION) as -> by (destruct (decide (v = HANDLE_VERSION)); tauto).
  destruct (token_identity w (verify_user_id req) h) as [[u a]|] eqn:Hi; [|discriminate].
  destruct (DoVerify h (Some pw) w) as [[[|] w1]|] eqn:Hd; [|discriminate..].
  rewrite MintAuthToken_eq. cbn zeta. intros E.
  apply (inj Some) in E. apply (inj2 pair) in E as [E _].
  assert (Et : token =
    {| root_secure_user_id := uint64 u; auxiliary_secure_user_id := uint64 a;
       timestamp := uint32 (uint32 (tv_sec w));
       hmac := ComputeSignature sizeof_signature (auth_token_key w1)
                 (le_bytes 8 u ++ le_bytes 8 a ++ le_bytes 4 (uint32 (tv_sec w))) |})
    by congruence.
  subst token. cbn [root_secure_user_id auxiliary_secure_user_id timestamp].
  exists pw, h, w1. split; [reflexivity|]. split; [reflexivity|].
  split; [exact Hv|]. split; [exact Hd|].
  split; [exact (uint32_uint32 (tv_sec w))|].
  destruct (token_identity_cases _ _ _ _ _ Hi) as [(Hx & -> & ->)|(Hf & Hu & Ha)].
  - left. split; [exact Hx|]. split; reflexivity.
  - right. rewrite (read_user_id_uint64 _ _ Hu), (read_authenticator_id_uint64 _ _ Ha).
    auto.
Qed.

(** X6.  [Verify] never writes the password file and never draws from the
    random source, whatever it answers: the store, the sequence of writes,
    the random source and the keys are as before the call. *)
Theorem Verify_never_writes req w r w' :
  Verify req w = Some (r, w') →
  password_files w' = password_files w ∧
  writes (trace w') = writes (trace w) ∧
  drawn w' = drawn w ∧ entropy w' = entropy w ∧
  password_key w' = password_key w ∧ auth_token_key w' = auth_token_key w.
Proof.
  intros Hv. cut (quiet w w').
  { intros (?&?&?&?&?&?&?). repeat split; assumption. }
  revert Hv. rewrite Verify_eq.
  destruct (verify_provided_password req) as [pw|];
    [|intros [= _ <-]; apply quiet_refl].
  destruct (verify_password_handle req) as [h|];
    [|intros [= _ <-]; apply quiet_refl].
  destruct (read_version h) as [v|]; [|discriminate].
  case_decide; [intros [= _ <-]; apply quiet_refl|].
  destruct (token_identity w (verify_user_id req) h) as [[u a]|]; [|discriminate].
  destruct (DoVerify h (Some pw) w) as [[[|] w1]|] eqn:Hd; [| |discriminate].
  - destruct (MintAuthToken _ u a w1) as [[t w2]|] eqn:Hm; [|discriminate].
    intros [= _ <-].
    exact (quiet_step _ _ _ (DoVerify_quiet _ _ _ _ _ Hd) (MintAuthToken_quiet _ _ _ _ _ _ Hm)).
  - intros [= _ <-]. exact (DoVerify_quiet _ _ _ _ _ Hd).
Qed.

(** [Verify] on the stored record, once [DoVerify] has accepted it. *)
Lemma Verify_stored req pw h w w1 :
  verify_provided_password req = Some pw →
  verify_password_handle req = Some h →
  password_files w !! verify_user_id req = Some h →
  DoVerify h (Some pw) w = Some (true, w1) →
  ∃ token w2,
    Verify req w = Some (VerificationToken token, w2) ∧
    read_user_id h = Some (root_secure_user_id token) ∧
    read_authenticator_id h = Some (auxiliary_secure_user_id token).
Proof.
  intros Hpw Hh Hf Hd.
  pose proof (DoVerify_true_length _ _ _ _ Hd) as Hlen.
  pose proof (result_Some _ _ _ _ Hd) as Hr.
  rewrite DoVerify_spec in Hr by exact Hlen.
  destruct (signing_key w) as [key|]; [|discriminate Hr].
  apply (inj Some) in Hr. apply bool_decide_eq_true in Hr as [Hv _].
  destruct (handle_split h Hlen) as (v & U & A & S & G & rest & Eh & HU & HA & HS & HG).
  assert (Hu : read_user_id h = Some (le_value U))
    by (rewrite Eh; apply layout_user_id; assumption).
  assert (Ha : read_authenticator_id h = Some (le_value A))
    by (rewrite Eh; apply layout_authenticator_id; assumption).
  rewrite (Verify_validated req pw h w _ _ Hpw Hh Hv Hf Hu Ha), Hd, MintAuthToken_eq.
  cbn zeta. eexists _, _. split; [reflexivity|].
  cbn [root_secure_user_id auxiliary_secure_user_id].
  rewrite !uint64_le_value by assumption. split; assumption.
Qed.

(** X7.  When the presented handle is the stored record of the user and
    [DoVerify] accepts it with the presented password, [Verify] answers
    with a token that carries the secure id and the authenticator id of the
    handle. *)
Theorem Verify_stored_handle_identity req pw h w w1 :
  verify_provided_password req = Some pw →
  verify_password_handle req = Some h →
  password_files w !! verify_user_id req = Some h →
  DoVerify h (Some pw) w = Some (true, w1) →
  ∃ token w2,
    Verify req w = Some (VerificationToken token, w2) ∧
    read_user_id h = Some (root_secure_user_id token) ∧
    read_authenticator_id h = Some (auxiliary_secure_user_id token).
Proof. exact (Verify_stored req pw h w w1). Qed.

(** X13.  Neither [Verify] nor [DoVerify] checks the length of the handle:
    with a signing key at hand, a presented buffer shorter than
    [sizeof (password_handle_t)] is read past its end, by the field reads
    or by [memcmp_s] over the whole record. *)
Theorem Verify_short_handle_out_of_bounds req pw h w key :
  verify_provided_password req = Some pw →
  verify_password_handle req = Some h →
  read_version h = Some HANDLE_VERSION →
  signing_key w = Some key →
  (length h < sizeof_password_handle_t)%nat →
  DoVerify h (Some pw) w = None ∧ Verify req w = None.
Proof.
  intros Hpw Hh Hv Hkey Hlen.
  assert (Hd : DoVerify h (Some pw) w = None).
  { unfold DoVerify. run.
    destruct (read_salt h) as [s|]; [|reflexivity].
    destruct (read_user_id h) as [u|]; [|reflexivity].
    destruct (read_authenticator_id h) as [a|]; [|reflexivity].
    rewrite CreatePasswordHandle_eq, Hkey. unfold memcmp_s.
    change sizeof_password_handle_t with 57%nat in *.
    assert (Hl : load 0 57 h = None)
      by (unfold load; rewrite decide_False by lia; reflexivity).
    destruct (load 0 57 ([HANDLE_VERSION] ++ _)) as [x|]; [|reflexivity].
    cbn [mbind option_bind]. rewrite Hl. reflexivity. }
  split; [exact Hd|].
  rewrite Verify_eq, Hpw, Hh, Hv.
  rewrite decide_False by (intros E; exact (E eq_refl)).
  destruct (token_identity w (verify_user_id req) h) as [[u a]|]; [|reflexivity].
  rewrite Hd. reflexivity.
Qed.

End VerifyProperties.

Section EnrollProperties.

Context `{Platform}.

Lemma enroll_identity_keeps_key req w r w0 :
  enroll_identity req w = Some (r, w0) → signing_key w0 = signing_key w.
Proof.
  destruct (enroll_password_handle req) as [prior|] eqn:Hp.
  - intros He. destruct (enroll_identity_prior _ _ _ _ _ Hp He) as [Hq _].
    exact (quiet_password_key _ _ Hq).
  - rewrite enroll_identity_new by assumption. intros [= _ <-]. reflexivity.
Qed.

Lemma enroll_identity_drawn req w r w0 :
  enroll_identity req w = Some (r, w0) →
  entropy w0 = entropy w ∧
  drawn w0 = match enroll_password_handle req with
             | Some _ => drawn w
             | None => (8 + drawn w)%nat
             end.
Proof.
  destruct (enroll_password_handle req) as [prior|] eqn:Hp.
  - intros He. destruct (enroll_identity_prior _ _ _ _ _ Hp He) as [(He' & Hd & _) _].
    split; assumption.
  - rewrite enroll_identity_new by assumption. intros [= _ <-]. split; reflexivity.
Qed.

(** [Enroll] once the identity is settled and a signing key is there. *)
Lemma Enroll_after_identity req np w uid w0 key :
  enroll_provided_password req = Some np →
  enroll_identity req w = Some (Some uid, w0) →
  signing_key w0 = Some key →
  ∃ h w',
    Enroll req w = Some (EnrolledPasswordHandle h, w') ∧
    read_user_id h = Some (uint64 uid).
Proof.
  intros Hnp Hi Hkey. unfold Enroll. rewrite Hnp. run. rewrite Hi.
  destruct (CreatePasswordHandle (le_value (map (entropy w0) (seq (drawn w0) sizeof_salt_t)))
              uid
              (le_value (map (entropy (draw sizeof_salt_t w0))
                           (seq (drawn (draw sizeof_salt_t w0)) sizeof_secure_id_t)))
              np (draw sizeof_secure_id_t (draw sizeof_salt_t w0)))
    as [[[created|] wc]|] eqn:Hc.
  - eexists _, _. split; [reflexivity|].
    destruct (created_handle _ _ _ _ _ _ _ Hc) as (_ & _ & _ & _ & _ & Hu & _).
    exact Hu.
  - rewrite CreatePasswordHandle_eq in Hc.
    change (signing_key (draw sizeof_secure_id_t (draw sizeof_salt_t w0)))
      with (signing_key w0) in Hc.
    rewrite Hkey in Hc. discriminate Hc.
  - rewrite CreatePasswordHandle_eq in Hc. destruct (signing_key _); discriminate Hc.
Qed.

(** The state a successful [Enroll] leaves: the handle is the stored record
    and verifies with the enrolled password. *)
Lemma Enroll_leaves_verifiable req w h w' np :
  Enroll req w = Some (EnrolledPasswordHandle h, w') →
  enroll_provided_password req = Some np →
  password_files w' !! enroll_user_id req = Some h ∧
  (∃ key, signing_key w' = Some key) ∧
  ∃ w1, DoVerify h (Some np) w' = Some (true, w1).
Proof.
  intros He Hnp.
  destruct (Enroll_success _ _ _ _ He) as (np' & uid & w0 & wc & Hnp' & Hi & Hc & ->).
  assert (np' = np) as -> by congruence.
  destruct (created_handle _ _ _ _ _ _ _ Hc)
    as (key & _ & Hk' & Hlen & Hv & _ & _ & _ & _ & Hsig & _).
  split; [cbn [password_files log store]; apply lookup_insert_eq|].
  split; [exists key; exact Hk'|].
  apply result_inv. rewrite DoVerify_spec by (rewrite Hlen; reflexivity).
  change (signing_key (log _ (store _ _ wc))) with (signing_key wc).
  rewrite Hk', bool_decide_eq_true_2; [reflexivity|]. split; assumption.
Qed.

(** X8.  In a state whose key service has no password key (a null or an
    empty key), [Enroll] never answers with a handle and [Verify] never
    answers with a token. *)
Theorem no_password_key_no_success ereq vreq w :
  signing_key w = None →
  (∀ h w', Enroll ereq w ≠ Some (EnrolledPasswordHandle h, w')) ∧
  (∀ token w', Verify vreq w ≠ Some (VerificationToken token, w')).
Proof.
  intros Hkey. split.
  - intros h w' He.
    destruct (Enroll_success _ _ _ _ He) as (np & uid & w0 & wc & _ & Hi & Hc & _).
    destruct (created_handle _ _ _ _ _ _ _ Hc) as (key & Hk & _).
    change (signing_key (draw 8 (draw 8 w0))) with (signing_key w0) in Hk.
    rewrite (enroll_identity_keeps_key _ _ _ _ Hi) in Hk. congruence.
  - intros token w'. rewrite Verify_eq.
    destruct (verify_provided_password vreq) as [pw|]; [|discriminate].
    destruct (verify_password_handle vreq) as [h|]; [|discriminate].
    destruct (read_version h) as [v|]; [|discriminate].
    case_decide; [discriminate|].
    destruct (token_identity w (verify_user_id vreq) h) as [[u a]|]; [|discriminate].
    destruct (DoVerify h (Some pw) w) as [[[|] w1]|] eqn:Hd; [|discriminate..].
    pose proof (DoVerify_without_key _ _ _ _ _ Hkey Hd). discriminate.
Qed.

(** X9.  An [Enroll] call with a prior handle that fails the cross-check
    against the password file answers [ERROR_INVALID] and leaves the state
    exactly as it was: nothing is signed, drawn or written. *)
Theorem Enroll_rejects_unmatched_prior req prior w :
  enroll_password_handle req = Some prior →
  cross_check_fails w (enroll_user_id req) prior →
  Enroll req w = Some (EnrollError ERROR_INVALID, w).
Proof.
  intros Hp Hx. apply cross_check_fails_iff in Hx.
  unfold Enroll. destruct (enroll_provided_password req) as [np|]; [|reflexivity].
  run. unfold enroll_identity. rewrite Hp. run. rewrite Hx. reflexivity.
Qed.

(** X10.  Enroll, then verify: the handle a successful [Enroll] returns,
    presented to [Verify] for the same user with the enrolled password in
    the state [Enroll] left, is answered with a token that carries the
    secure id and the authenticator id of the handle. *)
Theorem Enroll_then_Verify ereq vreq w h w' np :
  Enroll ereq w = Some (EnrolledPasswordHandle h, w') →
  enroll_provided_password ereq = Some np →
  verify_user_id vreq = enroll_user_id ereq →
  verify_password_handle vreq = Some h →
  verify_provided_password vreq = Some np →
  ∃ token w'',
    Verify vreq w' = Some (VerificationToken token, w'') ∧
    read_user_id h = Some (root_secure_user_id token) ∧
    read_authenticator_id h = Some (auxiliary_secure_user_id token).
Proof.
  intros He Hnp Hu Hh Hpw.
  destruct (Enroll_leaves_verifiable _ _ _ _ _ He Hnp) as (Hf & _ & w1 & Hd).
  rewrite <- Hu in Hf. exact (Verify_stored vreq np h w' w1 Hpw Hh Hf Hd).
Qed.

(** X11.  Enroll, then enroll again: presenting the handle a successful
    [Enroll] returned, with the password it was enrolled for as the old
    password, a second [Enroll] for the same user succeeds with any new
    password, and the new handle carries the secure id of the first. *)
Theorem Enroll_then_Enroll req1 req2 w h w1 pw np :
  Enroll req1 w = Some (EnrolledPasswordHandle h, w1) →
  enroll_provided_password req1 = Some pw →
  enroll_user_id req2 = enroll_user_id req1 →
  enroll_password_handle req2 = Some h →
  enrolled_password req2 = Some pw →
  enroll_provided_password req2 = Some np →
  ∃ h2 w2,
    Enroll req2 w1 = Some (EnrolledPasswordHandle h2, w2) ∧
    read_user_id h2 = read_user_id h.
Proof.
  intros He Hpw Hu Hh Hold Hnp.
  destruct (Enroll_leaves_verifiable _ _ _ _ _ He Hpw) as (Hf & (key & Hkey) & wd & Hd).
  pose proof (DoVerify_true_length _ _ _ _ Hd) as Hlen.
  destruct (handle_split h Hlen) as (v & U & A & S & G & rest & Eh & HU & HA & HS & HG).
  assert (Hr : read_user_id h = Some (le_value U))
    by (rewrite Eh; apply layout_user_id; assumption).
  assert (Hne : h ≠ []) by (rewrite Eh; discriminate).
  assert (Hi : enroll_identity req2 w1 = Some (Some (le_value U), wd)).
  { unfold enroll_identity. rewrite Hh. run.
    rewrite ValidatePasswordFile_eq, Hu, Hf.
    rewrite bool_decide_eq_true_2 by (split; [exact Hne|reflexivity]).
    cbn [negb]. rewrite Hold, Hd. cbn [negb]. rewrite Hr. reflexivity. }
  assert (Hkd : signing_key wd = Some key).
  { rewrite (quiet_password_key _ _ (DoVerify_quiet _ _ _ _ _ Hd)). exact Hkey. }
  destruct (Enroll_after_identity req2 np w1 _ wd key Hnp Hi Hkd) as (h2 & w2 & He2 & Hu2).
  exists h2, w2. split; [exact He2|].
  rewrite Hu2, Hr, (uint64_le_value U HU). reflexivity.
Qed.

(** X12.  A successful [Enroll] draws exactly 24 bytes from the random
    source when no prior handle is presented (secure id, salt,
    authenticator id) and exactly 16 when one is (salt, authenticator id). *)
Theorem Enroll_draws req w h w' :
  Enroll req w = Some (EnrolledPasswordHandle h, w') →
  entropy w' = entropy w ∧
  drawn w' = match enroll_password_handle req with
             | Some _ => (16 + drawn w)%nat
             | None => (24 + drawn w)%nat
             end.
Proof.
  intros He.
  destruct (Enroll_success _ _ _ _ He) as (np & uid & w0 & wc & _ & Hi & Hc & ->).
  destruct (CreatePasswordHandle_quiet _ _ _ _ _ _ _ Hc) as (Hent & Hdr & _).
  destruct (enroll_identity_drawn _ _ _ _ Hi) as (Hent0 & Hdr0).
  cbn [entropy drawn log store]. rewrite Hent, Hdr. cbn [entropy drawn draw].
  rewrite Hent0, Hdr0. split; [reflexivity|].
  destruct (enroll_password_handle req); reflexivity.
Qed.

End EnrollProperties.

(** ** Further sample data *)

(** The boot state of a device whose key service has no password key. *)
Definition unkeyed_world : World :=
  {| entropy := entropy boot_world; drawn := 0;
     password_key := None;
     auth_token_key := auth_token_key boot_world;
     password_files := ∅;
     tv_sec := tv_sec boot_world; trace := [] |}.

(** A request to verify [enrolled_handle] for the user it was enrolled for. *)
Definition enrolled_verify : VerifyRequest :=
  {| verify_user_id := 7;
     verify_password_handle := Some enrolled_handle;
     verify_provided_password := Some sample_password |}.

(** X2 at [sample_handle] with one byte appended. *)
Lemma DoVerify_ignores_trailing_bytes_witness :
  DoVerify (take sizeof_password_handle_t (sample_handle ++ [x00]))
    (Some sample_password) boot_world
  = DoVerify (sample_handle ++ [x00]) (Some sample_password) boot_world.
Proof.
  apply (DoVerify_ignores_trailing_bytes (sample_handle ++ [x00])).
  vm_compute. lia.
Defined.

(** X3 at [sample_handle], created for salt 33, secure id 11 and
    authenticator id 22. *)
Lemma CreatePasswordHandle_reads_back_witness :
  length sample_handle = 57%nat ∧
  read_user_id sample_handle = Some 11 ∧
  read_authenticator_id sample_handle = Some 22 ∧
  read_salt sample_handle = Some 33.
Proof.
  destruct (CreatePasswordHandle_reads_back 33 11 22 sample_password boot_world
              sample_handle sample_world eq_refl) as (Hl & _ & Hu & Ha & Hs & _).
  repeat split; assumption.
Defined.

(** X4 at [sample_handle] with its password. *)
Lemma DoVerify_accepts_only_witness :
  (sizeof_password_handle_t ≤ length sample_handle)%nat ∧
  read_version sample_handle = Some HANDLE_VERSION.
Proof.
  destruct (DoVerify sample_handle (Some sample_password) sample_world)
    as [[[|] w1]|] eqn:Hd; [|vm_compute in Hd; discriminate Hd..].
  destruct (DoVerify_accepts_only _ _ _ _ Hd) as (Hl & Hv & _).
  split; assumption.
Defined.

(** X5 at [sample_verify]: the clock reads 2^32 + 1000 seconds. *)
Lemma Verify_token_only_if_verified_witness :
  ∃ token, result (Verify sample_verify) boot_world = Some (VerificationToken token) ∧
           timestamp token = 1000.
Proof.
  unfold result.
  destruct (Verify sample_verify boot_world) as [[[e|token] w']|] eqn:Hv;
    [vm_compute in Hv; discriminate Hv| |vm_compute in Hv; discriminate Hv].
  exists token. split; [reflexivity|].
  destruct (Verify_token_only_if_verified _ _ _ _ Hv)
    as (pw & h & w1 & _ & _ & _ & _ & Ht & _).
  rewrite Ht. reflexivity.
Defined.

(** X6 at [enrolled_verify]. *)
Lemma Verify_never_writes_witness :
  ∃ r w', Verify enrolled_verify enrolled_world = Some (r, w') ∧
          password_files w' = password_files enrolled_world ∧
          drawn w' = drawn enrolled_world.
Proof.
  destruct (Verify enrolled_verify enrolled_world) as [[r w']|] eqn:Hv;
    [|vm_compute in Hv; discriminate Hv].
  exists r, w'. split; [reflexivity|].
  destruct (Verify_never_writes _ _ _ _ Hv) as (Hf & _ & Hd & _).
  split; assumption.
Defined.

(** X7 at [enrolled_verify]: the handle is the stored record of user 7. *)
Lemma Verify_stored_handle_identity_witness :
  ∃ token w2,
    Verify enrolled_verify enrolled_world = Some (VerificationToken token, w2) ∧
    read_user_id enrolled_handle = Some (root_secure_user_id token) ∧
    read_authenticator_id enrolled_handle = Some (auxiliary_secure_user_id token).
Proof.
  destruct (DoVerify enrolled_handle (Some sample_password) enrolled_world)
    as [[[|] w1]|] eqn:Hd; [|vm_compute in Hd; discriminate Hd..].
  apply (Verify_stored_handle_identity enrolled_verify sample_password enrolled_handle
           enrolled_world w1).
  - reflexivity.
  - reflexivity.
  - vm_compute. reflexivity.
  - exact Hd.
Defined.

(** X8 at [unkeyed_world]. *)
Lemma no_password_key_no_success_witness :
  (∀ h w', Enroll first_enroll unkeyed_world ≠ Some (EnrolledPasswordHandle h, w')) ∧
  (∀ token w', Verify sample_verify unkeyed_world ≠ Some (VerificationToken token, w')).
Proof.
  apply (no_password_key_no_success first_enroll sample_verify unkeyed_world).
  reflexivity.
Defined.

(** X9 at [second_enroll] in [boot_world], where user 7 has no record. *)
Lemma Enroll_rejects_unmatched_prior_witness :
  Enroll second_enroll boot_world = Some (EnrollError ERROR_INVALID, boot_world).
Proof.
  apply (Enroll_rejects_unmatched_prior second_enroll enrolled_handle boot_world).
  - reflexivity.
  - vm_compute. exact I.
Defined.

(** X10 at [first_enroll] followed by [enrolled_verify]. *)
Lemma Enroll_then_Verify_witness :
  ∃ token w'',
    Verify enrolled_verify enrolled_world = Some (VerificationToken token, w'') ∧
    read_user_id enrolled_handle = Some (root_secure_user_id token) ∧
    read_authenticator_id enrolled_handle = Some (auxiliary_secure_user_id token).
Proof.
  apply (Enroll_then_Verify first_enroll enrolled_verify boot_world enrolled_handle
           enrolled_world sample_password).
  - vm_compute. reflexivity.
  - reflexivity.
  - reflexivity.
  - reflexivity.
  - reflexivity.
Defined.

(** X11 at [first_enroll] followed by [second_enroll]. *)
Lemma Enroll_then_Enroll_witness :
  ∃ h2 w2,
    Enroll second_enroll enrolled_world = Some (EnrolledPasswordHandle h2, w2) ∧
    read_user_id h2 = read_user_id enrolled_handle.
Proof.
  apply (Enroll_then_Enroll first_enroll second_enroll boot_world enrolled_handle
           enrolled_world sample_password other_password).
  - vm_compute. reflexivity.
  - reflexivity.
  - reflexivity.
  - reflexivity.
  - reflexivity.
  - reflexivity.
Defined.

(** X12 at [first_enroll]: no prior handle, 24 bytes drawn. *)
Lemma Enroll_draws_witness :
  entropy enrolled_world = entropy boot_world ∧ drawn enrolled_world = 24%nat.
Proof.
  apply (Enroll_draws first_enroll boot_world enrolled_handle enrolled_world).
  vm_compute. reflexivity.
Defined.

(** X13 at the first 30 bytes of [sample_handle]. *)
Lemma Verify_short_handle_out_of_bounds_witness :
  Verify {| verify_user_id := 8;
            verify_password_handle := Some (take 30 sample_handle);
            verify_provided_password := Some sample_password |} boot_world = None.
Proof.
  refine (proj2 (Verify_short_handle_out_of_bounds _ sample_password
                   (take 30 sample_handle) boot_world sample_key _ _ _ _ _)).
  - reflexivity.
  - reflexivity.
  - reflexivity.
  - reflexivity.
  - vm_compute. lia.
Defined.
